(** * wajpay: the multi-session WhatsApp connection manager

    A shallow embedding of the two server entry points of the repository,
    [app.js] (credentials kept in MySQL) and [server.js] (credentials kept
    in files), and of the properties its specification states about them.

    - JavaScript strings are [string]; every character is read as one
      code unit in the range 0..255.
    - The registry [SESSIONS] (a plain JS object used as a map) and the
      [sessions] table (unique key [session_id]) are [gmap string _];
      the [messages] table is a list of rows in insertion order.  Keys
      that name a property of [Object.prototype] are not treated apart,
      and SQL compares session ids exactly.
    - An async handler is a computation in a state-and-exception monad
      [M]; [socket.emit], [io.emit], protocol calls and [setTimeout] are
      recorded in the state.  A handler is run from start to end, except
      [startBaileysSession], which is also given phase by phase (one
      phase per [await]) so that two calls can be interleaved.
    - The Baileys socket is opaque: whether a protocol call rejects, and
      what [sock.user] holds, is read from an environment [Env].
    - The relational store is modelled as always available.

    Covered handlers: [startBaileysSession], the [connection.update] and
    [messages.upsert] listeners, the socket commands [start-session],
    [request-qr], [send-message], [broadcast], [logout-session]/[logout],
    [get-history], and the REST routes [/api/send] and [/api/messages].
    The group, presence, profile and media handlers and the listeners
    that only relay a protocol event to the clients are not modelled. *)

From stdpp Require Import gmap strings list sorting.
From Stdlib Require Import ZArith Ascii String Sorted Permutation.

Open Scope string_scope.
Open Scope list_scope.
Set Warnings "-register-all".

(** ** JavaScript values and exceptions *)

Inductive Result (A : Type) : Type :=
| Return (a : A)
| Throw (msg : string).
Arguments Return {A} a.
Arguments Throw {A} msg.

Inductive jval : Type :=
| JUndef
| JNull
| JBool (b : bool)
| JNum (n : Z)
| JStr (s : string)
| JArr (items : list jval)
| JObj (fields : list (string * jval)).

Definition jopt (o : option string) : jval :=
  match o with Some s => JStr s | None => JNull end.

(** [obj[k]] on an object literal. *)
Fixpoint field (k : string) (fs : list (string * jval)) : option jval :=
  match fs with
  | [] => None
  | (k', v) :: r => if String.eqb k k' then Some v else field k r
  end.

(** [err?.message || String(err)] for an [Error] whose message is [msg]. *)
Definition err_text (msg : string) : string :=
  if String.eqb msg "" then "Error" else msg.

(** ** Strings: [trim], [endsWith], [replace(/[^0-9]/g,'')], [parseInt] *)

Definition is_ws (c : ascii) : bool :=
  let n := N_of_ascii c in
  ((9 <=? n) && (n <=? 13) || (n =? 32) || (n =? 160))%N.

Definition is_digit (c : ascii) : bool :=
  let n := N_of_ascii c in ((48 <=? n) && (n <=? 57))%N.

Fixpoint trimStart (s : string) : string :=
  match s with
  | EmptyString => EmptyString
  | String c r => if is_ws c then trimStart r else s
  end.

Fixpoint trimEnd (s : string) : string :=
  match s with
  | EmptyString => EmptyString
  | String c r =>
      let r' := trimEnd r in
      if is_ws c && String.eqb r' "" then "" else String c r'
  end.

Definition trim (s : string) : string := trimEnd (trimStart s).

Fixpoint endsWith (s suf : string) : bool :=
  String.eqb s suf ||
  match s with
  | EmptyString => false
  | String _ r => endsWith r suf
  end.

Fixpoint keep_digits (s : string) : string :=
  match s with
  | EmptyString => EmptyString
  | String c r => if is_digit c then String c (keep_digits r) else keep_digits r
  end.

Fixpoint take_digits (s : string) : list ascii :=
  match s with
  | EmptyString => []
  | String c r => if is_digit c then c :: take_digits r else []
  end.

Definition digits_value (ds : list ascii) : Z :=
  fold_left (fun acc c => 10 * acc + (Z.of_N (N_of_ascii c) - 48))%Z ds 0%Z.

(** [parseInt(s, 10)]; [None] is [NaN]. *)
Definition parseInt (s : string) : option Z :=
  let body sign r :=
    match take_digits r with
    | [] => None
    | ds => Some (sign * digits_value ds)%Z
    end in
  match trimStart s with
  | String "-" r => body (-1)%Z r
  | String "+" r => body 1%Z r
  | r => body 1%Z r
  end.

(** ** [formatJid] (app.js 157-163, server.js 749-755: the same text) *)

Definition user_suffix : string := "@s.whatsapp.net".
Definition group_suffix : string := "@g.us".

(** The argument is [None] for [undefined]/[null]. *)
Definition formatJid (numberOrJid : option string) : Result string :=
  match numberOrJid with
  | None | Some EmptyString => Throw "missing number/jid"
  | Some s0 =>
      let s := trim s0 in
      if endsWith s user_suffix || endsWith s group_suffix then Return s
      else Return (keep_digits s +:+ user_suffix)
  end.

(** [id.split(':')[0]] *)
Fixpoint before_colon (s : string) : string :=
  match s with
  | EmptyString => EmptyString
  | String c r => if Ascii.eqb c ":" then EmptyString else String c (before_colon r)
  end.

(** [x || d] on an optional string: [undefined] and [''] are falsy. *)
Definition or_default (x : option string) (d : string) : string :=
  match x with
  | None | Some EmptyString => d
  | Some s => s
  end.

(** A destructuring default [{ x = d }]: only [undefined] takes it. *)
Definition param_default (x : option string) (d : string) : string :=
  match x with None => d | Some s => s end.

(** ** The persistent tables *)

Inductive Status : Set :=
  loading | qr_received | connected | disconnected | logged_out.

Definition status_name (s : Status) : string :=
  match s with
  | loading => "loading"
  | qr_received => "qr_received"
  | connected => "connected"
  | disconnected => "disconnected"
  | logged_out => "logged_out"
  end.

(** A row of [sessions]; the key [session_id] is the key of the map.
    The timestamps of this table are not modelled. *)
Record SessionRow : Set := mkSession {
  user_id : option string;
  phone_number : option string;
  status : Status
}.

Inductive Direction : Set := dir_in | dir_out.

(** A row of [messages] ([media_base64] is written by the media handlers
    only and is left out). *)
Record MessageRow : Set := mkMessage {
  id : N;
  session_id : option string;
  direction : Direction;
  from_who : option string;
  to_who : option string;
  text : option string;
  media_type : option string;
  created_at : N
}.

(** ** The process state *)

(** [SESSIONS[sessionId] = { sock, lastQr, createdAt, contacts }]; the
    socket is named by its handle. *)
Record Connection : Type := mkConn {
  sock : nat;
  lastQr : option string;
  createdAt : N;
  contacts : jval
}.

(** What a socket made by [makeWASocket] closes over, and whether the
    protocol has closed it. *)
Record SockInfo : Set := mkSock {
  s_sid : string;
  s_client : option nat;
  s_closed : bool
}.

Inductive ProtoCall : Set :=
| CFetchVersion
| CMakeSocket (sid : string) (auth : option string) (version : list nat)
| CSend (h : nat) (jid : string) (text : option string)
| CLogout (h : nat).

(** [setTimeout(() => startBaileysSession(sid, client).catch(..), delay)] *)
Record Timer : Set := mkTimer {
  delay_ms : N;
  tm_sid : string;
  tm_client : option nat
}.

Inductive Target : Set :=
| ToSocket (client : nat)
| ToAll.

Record Emit : Type := mkEmit {
  target : Target;
  name : string;
  payload : jval
}.

Record State : Type := mkState {
  SESSIONS : gmap string Connection;
  sessions : gmap string SessionRow;
  messages : list MessageRow;
  next_id : N;
  creds : gmap string string;
  sockets : list SockInfo;
  calls : list ProtoCall;
  timers : list Timer;
  emitted : list Emit;
  now : N
}.

Definition set_SESSIONS (f : gmap string Connection -> gmap string Connection)
    (st : State) : State :=
  mkState (f (SESSIONS st)) (sessions st) (messages st) (next_id st) (creds st)
    (sockets st) (calls st) (timers st) (emitted st) (now st).

Definition set_sessions (f : gmap string SessionRow -> gmap string SessionRow)
    (st : State) : State :=
  mkState (SESSIONS st) (f (sessions st)) (messages st) (next_id st) (creds st)
    (sockets st) (calls st) (timers st) (emitted st) (now st).

Definition add_message (row : N -> N -> MessageRow) (st : State) : State :=
  mkState (SESSIONS st) (sessions st)
    (messages st ++ [row (next_id st) (now st)]) (N.succ (next_id st)) (creds st)
    (sockets st) (calls st) (timers st) (emitted st) (now st).

Definition set_creds (f : gmap string string -> gmap string string)
    (st : State) : State :=
  mkState (SESSIONS st) (sessions st) (messages st) (next_id st) (f (creds st))
    (sockets st) (calls st) (timers st) (emitted st) (now st).

Definition set_sockets (f : list SockInfo -> list SockInfo) (st : State) : State :=
  mkState (SESSIONS st) (sessions st) (messages st) (next_id st) (creds st)
    (f (sockets st)) (calls st) (timers st) (emitted st) (now st).

Definition add_call (c : ProtoCall) (st : State) : State :=
  mkState (SESSIONS st) (sessions st) (messages st) (next_id st) (creds st)
    (sockets st) (calls st ++ [c]) (timers st) (emitted st) (now st).

Definition set_timers (f : list Timer -> list Timer) (st : State) : State :=
  mkState (SESSIONS st) (sessions st) (messages st) (next_id st) (creds st)
    (sockets st) (calls st) (f (timers st)) (emitted st) (now st).

Definition add_emit (e : Emit) (st : State) : State :=
  mkState (SESSIONS st) (sessions st) (messages st) (next_id st) (creds st)
    (sockets st) (calls st) (timers st) (emitted st ++ [e]) (now st).

Definition set_now (t : N) (st : State) : State :=
  mkState (SESSIONS st) (sessions st) (messages st) (next_id st) (creds st)
    (sockets st) (calls st) (timers st) (emitted st) t.

Definition initial : State :=
  mkState ∅ ∅ [] 1%N ∅ [] [] [] [] 0%N.

(** ** The environment: the protocol capability and the configuration *)

Record Env : Type := mkEnv {
  (** [rejects past c = Some msg]: the protocol call [c], made after the
      calls [past], rejects with [new Error(msg)]. *)
  rejects : list ProtoCall -> ProtoCall -> option string;
  (** [sock.user?.id] *)
  sock_user : nat -> option string;
  (** the version [fetchLatestBaileysVersion] resolves to *)
  latest_version : list nat;
  (** [qrcode.toDataURL] *)
  toDataURL : string -> Result string;
  (** the mapped contact list of [sock.store.contacts]; [None] when
      reading it throws *)
  store_contacts : nat -> option jval;
  (** [process.env.API_KEY] *)
  env_API_KEY : option string
}.

(** Baileys' [DisconnectReason.loggedOut]. *)
Definition DisconnectReason_loggedOut : Z := 401.

(** ** The handler monad: state and exceptions *)

Definition M (A : Type) : Type := State -> State * Result A.

Definition ret {A} (a : A) : M A := fun st => (st, Return a).
Definition throw {A} (msg : string) : M A := fun st => (st, Throw msg).
Definition lift {A} (r : Result A) : M A := fun st => (st, r).
Definition gets {A} (f : State -> A) : M A := fun st => (st, Return (f st)).
Definition modify (f : State -> State) : M unit := fun st => (f st, Return tt).

Definition bind {A B} (m : M A) (k : A -> M B) : M B :=
  fun st =>
    match m st with
    | (st', Return a) => k a st'
    | (st', Throw e) => (st', Throw e)
    end.

(** [try { m } catch (e) { h e }] *)
Definition try_catch {A} (m : M A) (h : string -> M A) : M A :=
  fun st =>
    match m st with
    | (st', Throw e) => h e st'
    | r => r
    end.

Notation "'let*' x ':=' m 'in' k" := (bind m (fun x => k))
  (at level 10, x pattern, m at level 100, k at level 200).
Notation "m ';;;' k" := (bind m (fun _ => k))
  (at level 100, k at level 200, right associativity).

(** [try { m } catch (e) {}] *)
Definition ignore_errors (m : M unit) : M unit := try_catch m (fun _ => ret tt).

Definition when (b : bool) (m : M unit) : M unit := if b then m else ret tt.

Definition socket_emit (client : nat) (ev : string) (p : jval) : M unit :=
  modify (add_emit (mkEmit (ToSocket client) ev p)).

Definition io_emit (ev : string) (p : jval) : M unit :=
  modify (add_emit (mkEmit ToAll ev p)).

(** A call into the protocol capability. *)
Definition proto (env : Env) (c : ProtoCall) : M unit :=
  fun st =>
    match rejects env (calls st) c with
    | None => (add_call c st, Return tt)
    | Some e => (add_call c st, Throw e)
    end.

(** [sock.user] as sent to the clients. *)
Definition user_json (env : Env) (h : nat) : jval :=
  match sock_user env h with
  | Some i => JObj [("id", JStr i)]
  | None => JUndef
  end.

Definition session_event (sid : string) (s : Status) : jval :=
  JObj [("id", JStr sid); ("status", JStr (status_name s))].

(** ** The stores *)

(** [INSERT ... ON DUPLICATE KEY UPDATE]: every column given is
    overwritten. *)
Definition sessionStore_upsert (sid : string) (uid phone : option string)
    (s : Status) : M unit :=
  modify (set_sessions <[sid := mkSession uid phone s]>).

Definition with_status (s : Status) (r : SessionRow) : SessionRow :=
  mkSession (user_id r) (phone_number r) s.

(** [UPDATE sessions SET status=? WHERE session_id=?] *)
Definition sessionStore_updateStatus (sid : string) (s : Status) : M unit :=
  modify (set_sessions (alter (with_status s) sid)).

(** [UPDATE sessions SET phone_number=? WHERE session_id=?] *)
Definition sessionStore_setPhone (sid : string) (phone : string) : M unit :=
  modify (set_sessions
    (alter (fun r => mkSession (user_id r) (Some phone) (status r)) sid)).

Definition session_json (kv : string * SessionRow) : jval :=
  JObj [("session_id", JStr kv.1);
        ("user_id", jopt (user_id kv.2));
        ("phone_number", jopt (phone_number kv.2));
        ("status", JStr (status_name (status kv.2)))].

(** [SELECT * FROM sessions]; the order of the rows is not modelled. *)
Definition sessionStore_list : M jval :=
  gets (fun st => JArr (session_json <$> map_to_list (sessions st))).

(** [INSERT INTO messages ...]: the id is the next auto-increment value
    and [created_at] the current time. *)
Definition messageStore_insert (sid : option string) (d : Direction)
    (from to txt media : option string) : M unit :=
  modify (add_message (fun i t => mkMessage i sid d from to txt media t)).

Definition message_json (r : MessageRow) : jval :=
  JObj [("id", JNum (Z.of_N (id r)));
        ("session_id", jopt (session_id r));
        ("direction", JStr (match direction r with dir_in => "in" | dir_out => "out" end));
        ("from_who", jopt (from_who r));
        ("to_who", jopt (to_who r));
        ("text", jopt (text r));
        ("media_type", jopt (media_type r));
        ("created_at", JNum (Z.of_N (created_at r)))].

Definition newer_id (a b : MessageRow) : Prop := (id b <= id a)%N.
Definition newer_time (a b : MessageRow) : Prop := (created_at b <= created_at a)%N.

#[global] Instance newer_id_dec a b : Decision (newer_id a b) := N.le_dec _ _.
#[global] Instance newer_time_dec a b : Decision (newer_time a b) := N.le_dec _ _.

(** [WHERE session_id=?] *)
Definition of_session (sid : string) (rows : list MessageRow) : list MessageRow :=
  filter (fun r => session_id r = Some sid) rows.

(** [SELECT ... ORDER BY id DESC] *)
Definition order_by_id_desc (rows : list MessageRow) : list MessageRow :=
  merge_sort newer_id rows.

(** [SELECT ... ORDER BY created_at DESC] *)
Definition order_by_created_at_desc (rows : list MessageRow) : list MessageRow :=
  merge_sort newer_time rows.

(** [LIMIT ?] with the value bound to it: a negative number or [NaN]
    is a syntax error of the query. *)
Definition sql_limit {A} (limit : option Z) (rows : list A) : Result (list A) :=
  match limit with
  | Some n => if (0 <=? n)%Z then Return (take (Z.to_nat n) rows)
              else Throw "ER_PARSE_ERROR"
  | None => Throw "ER_PARSE_ERROR"
  end.

(** ** What the clients and the protocol send *)

(** [{ sessionId, to, message }] of [send-message]; [None] is an absent
    ([undefined]) field. *)
Record SendCmd : Set := mkSend {
  p_sessionId : option string;
  p_to : option string;
  p_message : option string
}.

(** [{ sessionId, numbers, message }] of [broadcast] *)
Record BroadcastCmd : Set := mkBroadcast {
  b_sessionId : option string;
  b_numbers : option (list string);
  b_message : option string
}.

Inductive ConnState : Set := conn_connecting | conn_open | conn_close.

#[global] Instance ConnState_eq_dec : EqDecision ConnState.
Proof. solve_decision. Defined.

(** A [connection.update] event: [connection], the status code
    [lastDisconnect?.error?.output?.statusCode] and [qr]. *)
Record ConnUpdate : Set := mkUpdate {
  connection : option ConnState;
  statusCode : option Z;
  qr : option string
}.

Record MsgKey : Set := mkKey {
  remoteJid : option string;
  fromMe : bool;
  key_id : option string
}.

(** [msg.message]: for [extendedTextMessage] and [imageMessage] the outer
    option says whether the part is present, the inner one holds its
    [text] or [caption]. *)
Record MsgBody : Set := mkBody {
  conversation : option string;
  extendedTextMessage : option (option string);
  imageMessage : option (option string);
  documentMessage : bool
}.

(** A Baileys message always carries a [key]. *)
Record WAMessage : Set := mkMsg {
  key : MsgKey;
  message : option MsgBody
}.

Definition truthy (o : option string) : option string :=
  match o with
  | None | Some EmptyString => None
  | Some s => Some s
  end.

Definition message_text (b : MsgBody) : string :=
  match truthy (conversation b) with
  | Some t => t
  | None =>
      match truthy (mjoin (extendedTextMessage b)) with
      | Some t => t
      | None => default "" (truthy (mjoin (imageMessage b)))
      end
  end.

Definition key_json (k : MsgKey) : jval :=
  JObj [("remoteJid", jopt (remoteJid k)); ("fromMe", JBool (fromMe k));
        ("id", jopt (key_id k))].

(** [!msg.message || msg.key.remoteJid === 'status@broadcast'] *)
Definition skipped (msg : WAMessage) : bool :=
  match message msg with
  | None => true
  | Some _ => bool_decide (remoteJid (key msg) = Some "status@broadcast")
  end.

(** A REST request: the key header, the query string and the body. *)
Record Request : Set := mkRequest {
  h_api_key : option string;
  q_api_key : option string;
  q_sessionId : option string;
  q_limit : option string;
  r_sessionId : option string;
  r_to : option string;
  r_message : option string
}.

Inductive Body : Type :=
| BJson (v : jval)
| BRows (rows : list MessageRow).

Record Response : Type := mkResponse {
  code : nat;
  body : Body
}.

(** ** Pieces common to both entry points *)

Definition makeWASocket (env : Env) (sid : string) (client : option nat)
    (auth : option string) (version : list nat) : M nat :=
  proto env (CMakeSocket sid auth version) ;;;
  let* h := gets (fun st => List.length (sockets st)) in
  modify (set_sockets (fun l => l ++ [mkSock sid client false])) ;;;
  ret h.

(** [fetchLatestBaileysVersion().catch(() => ({ version: fallback }))] *)
Definition fetchLatestBaileysVersion (env : Env) (fallback : list nat)
    : M (list nat) :=
  try_catch (proto env CFetchVersion ;;; ret (latest_version env))
            (fun _ => ret fallback).

(** [SESSIONS[sessionId].lastQr = qrData] *)
Definition set_lastQr (sid qrData : string) : M unit :=
  fun st =>
    match SESSIONS st !! sid with
    | Some c =>
        (set_SESSIONS
           <[sid := mkConn (sock c) (Some qrData) (createdAt c) (contacts c)]> st,
         Return tt)
    | None => (st, Throw "Cannot set properties of undefined (setting 'lastQr')")
    end.

(** [SESSIONS[sessionId].contacts = contacts] *)
Definition set_contacts (sid : string) (cs : jval) : M unit :=
  fun st =>
    match SESSIONS st !! sid with
    | Some c =>
        (set_SESSIONS <[sid := mkConn (sock c) (lastQr c) (createdAt c) cs]> st,
         Return tt)
    | None => (st, Throw "Cannot set properties of undefined (setting 'contacts')")
    end.

Definition setTimeout (sid : string) (client : option nat) (ms : N) : M unit :=
  modify (set_timers (fun l => l ++ [mkTimer ms sid client])).

(** [requireApiKey]: the key is [req.headers['x-api-key'] ||
    req.query.api_key] and must equal [process.env.API_KEY ||
    'changeme123']. *)
Definition requireApiKey (env : Env) (req : Request) : bool :=
  match truthy (h_api_key req), truthy (q_api_key req) with
  | Some k, _ | None, Some k =>
      bool_decide (k = or_default (env_API_KEY env) "changeme123")
  | None, None => false
  end.

Definition unauthorized : Response :=
  mkResponse 401 (BJson (JObj [("error", JStr "invalid api key")])).

(** The phases of one call of [startBaileysSession]: where it is
    suspended. *)
Inductive StartPc : Set :=
| AtEntry
| AwaitUpsert
| AwaitAuth
| AwaitVersion (auth : option string).

Record StartTask : Set := mkTask {
  t_sid : string;
  t_client : option nat;
  t_pc : StartPc
}.

(** ** app.js *)

Module App.

(** Modelled from the spec: [useMySQLAuthState(pool, sessionId)] of
    mysql-auth.js, which is not under src/; the load side of the
    Credential Store Adapter, load(sessionId) -> credentials | none. *)
Definition useMySQLAuthState (sid : string) : M (option string) :=
  gets (fun st => creds st !! sid).

(** Modelled from the spec: [saveCreds] returned by [useMySQLAuthState]
    (mysql-auth.js, not under src/): save(sessionId, credentials). *)
Definition saveCreds (sid blob : string) : M unit :=
  modify (set_creds <[sid := blob]>).

(** Modelled from the spec: [clearSession(pool, sessionId)] of
    mysql-auth.js (not under src/): purges the credential-store entry. *)
Definition clearSession (sid : string) : M unit :=
  modify (set_creds (delete sid)).

(** app.js 171-296 *)
Definition startBaileysSession (env : Env) (sid : string) (client : option nat)
    : M nat :=
  let* reg := gets SESSIONS in
  match reg !! sid with
  | Some c => ret (sock c)
  | None =>
      sessionStore_upsert sid None None loading ;;;
      let* auth := useMySQLAuthState sid in
      let* version := fetchLatestBaileysVersion env [4; 0; 0]%nat in
      let* h := makeWASocket env sid client auth version in
      let* t := gets now in
      modify (set_SESSIONS <[sid := mkConn h None t (JObj [])]>) ;;;
      ret h
  end.

(** The same function, one phase at a time: [inl t'] is the call
    suspended at its next [await], [inr h] the returned socket. *)
Definition start_step (env : Env) (t : StartTask) : M (StartTask + nat) :=
  let sid := t_sid t in
  match t_pc t with
  | AtEntry =>
      let* reg := gets SESSIONS in
      match reg !! sid with
      | Some c => ret (inr (sock c))
      | None => ret (inl (mkTask sid (t_client t) AwaitUpsert))
      end
  | AwaitUpsert =>
      sessionStore_upsert sid None None loading ;;;
      ret (inl (mkTask sid (t_client t) AwaitAuth))
  | AwaitAuth =>
      let* auth := useMySQLAuthState sid in
      ret (inl (mkTask sid (t_client t) (AwaitVersion auth)))
  | AwaitVersion auth =>
      let* version := fetchLatestBaileysVersion env [4; 0; 0]%nat in
      let* h := makeWASocket env sid (t_client t) auth version in
      let* tm := gets now in
      modify (set_SESSIONS <[sid := mkConn h None tm (JObj [])]>) ;;;
      ret (inr h)
  end.

(** The [connection.update] listener of the socket [h] made for [sid]
    (app.js 194-244). *)
Definition on_connection_update (env : Env) (sid : string) (client : option nat)
    (h : nat) (u : ConnUpdate) : M unit :=
  match qr u with
  | Some q =>
      ignore_errors (
        let* qrData := lift (toDataURL env q) in
        set_lastQr sid qrData ;;;
        match client with
        | Some c => socket_emit c "qr" (JObj [("sessionId", JStr sid); ("qr", JStr qrData)])
        | None => ret tt
        end ;;;
        io_emit "session" (session_event sid qr_received) ;;;
        sessionStore_updateStatus sid qr_received)
  | None => ret tt
  end ;;;
  when (bool_decide (connection u = Some conn_open)) (
    match truthy (before_colon <$> sock_user env h) with
    | Some phone => sessionStore_upsert sid None (Some phone) connected
    | None => ret tt
    end ;;;
    io_emit "session" (session_event sid connected) ;;;
    sessionStore_updateStatus sid connected ;;;
    io_emit "session-connected"
      (JObj [("sessionId", JStr sid); ("user", user_json env h)]) ;;;
    ignore_errors (
      match store_contacts env h with
      | None => throw "Cannot read properties of undefined (reading 'contacts')"
      | Some cs =>
          set_contacts sid cs ;;;
          io_emit "contact-list" (JObj [("sessionId", JStr sid); ("contacts", cs)])
      end)) ;;;
  when (bool_decide (connection u = Some conn_close)) (
    if bool_decide (statusCode u = Some DisconnectReason_loggedOut) then
      sessionStore_updateStatus sid logged_out ;;;
      io_emit "session" (session_event sid logged_out) ;;;
      modify (set_SESSIONS (delete sid)) ;;;
      io_emit "log" (JStr ("[" +:+ sid +:+ "] logged_out"))
    else
      sessionStore_updateStatus sid disconnected ;;;
      io_emit "session" (session_event sid disconnected) ;;;
      io_emit "log"
        (JStr ("[" +:+ sid +:+ "] disconnected - will attempt reconnect in 3s")) ;;;
      setTimeout sid None 3000).

(** The body of the loop of the [messages.upsert] listener. *)
Definition on_message (env : Env) (sid : string) (h : nat) (msg : WAMessage)
    : M unit :=
  match message msg with
  | Some b =>
      if skipped msg then ret tt
      else
        let txt := message_text b in
        messageStore_insert (Some sid)
          (if fromMe (key msg) then dir_out else dir_in)
          (remoteJid (key msg)) (sock_user env h) (Some txt)
          (match imageMessage b with
           | Some _ => Some "image"
           | None => if documentMessage b then Some "document" else None
           end) ;;;
        io_emit "message"
          (JObj [("sessionId", JStr sid); ("from", jopt (remoteJid (key msg)));
                 ("text", JStr txt); ("key", key_json (key msg))])
  | None => ret tt
  end.

(** app.js 247-271; [batch] is [m.messages], [None] when absent. *)
Fixpoint on_messages_loop (env : Env) (sid : string) (h : nat)
    (msgs : list WAMessage) : M unit :=
  match msgs with
  | [] => ret tt
  | msg :: rest => on_message env sid h msg ;;; on_messages_loop env sid h rest
  end.

Definition on_messages_upsert (env : Env) (sid : string) (h : nat)
    (batch : option (list WAMessage)) : M unit :=
  on_messages_loop env sid h (default [] batch).

(** [socket.on('start-session')], app.js 305-318 *)
Definition on_start_session (env : Env) (client : nat)
    (sessionId : option string) : M unit :=
  try_catch (
    let sid := or_default sessionId "main" in
    io_emit "log" (JStr ("start-session requested: " +:+ sid)) ;;;
    startBaileysSession env sid (Some client) ;;;
    sessionStore_upsert sid None None loading ;;;
    socket_emit client "session" (session_event sid loading) ;;;
    let* rows := sessionStore_list in
    socket_emit client "sessions-list" rows)
  (fun e => socket_emit client "error-message" (JStr (err_text e))).

(** [socket.on('request-qr')], app.js 320-326 *)
Definition on_request_qr (env : Env) (client : nat)
    (sessionId : option string) : M unit :=
  let sid := param_default sessionId "main" in
  let* reg := gets SESSIONS in
  match reg !! sid ≫= lastQr with
  | Some q => socket_emit client "qr" (JObj [("sessionId", JStr sid); ("qr", JStr q)])
  | None =>
      try_catch (startBaileysSession env sid (Some client) ;;; ret tt)
        (fun e => socket_emit client "error-message" (JStr ("Error: " +:+ e)))
  end.

(** [socket.on('send-message')], app.js 329-341 *)
Definition on_send_message (env : Env) (client : nat) (p : SendCmd) : M unit :=
  let sid := param_default (p_sessionId p) "main" in
  try_catch (
    let* reg := gets SESSIONS in
    match reg !! sid with
    | None => socket_emit client "error-message" (JStr "session not active")
    | Some s =>
        let* jid := lift (formatJid (p_to p)) in
        proto env (CSend (sock s) jid (p_message p)) ;;;
        messageStore_insert (Some sid) dir_out (sock_user env (sock s))
          (Some jid) (p_message p) None ;;;
        socket_emit client "success-message" (JStr "Message sent")
    end)
  (fun e => socket_emit client "error-message" (JStr (err_text e))).

Definition broadcast_status (sid jid st : string) (idx total : nat)
    (more : list (string * jval)) : jval :=
  JObj ([("id", JStr sid); ("to", JStr jid); ("status", JStr st);
         ("idx", JNum (Z.of_nat idx)); ("total", JNum (Z.of_nat total))] ++ more).

(** The [for] loop of [broadcast] from index [i] on; [numbers] is the
    rest of the array. *)
Fixpoint broadcast_loop (env : Env) (client : nat) (sid : string) (s : Connection)
    (message : string) (total : nat) (i : nat) (numbers : list string) : M unit :=
  match numbers with
  | [] => ret tt
  | to :: rest =>
      let* jid := lift (formatJid (Some to)) in
      try_catch (
        proto env (CSend (sock s) jid (Some message)) ;;;
        messageStore_insert (Some sid) dir_out (sock_user env (sock s))
          (Some jid) (Some message) None ;;;
        socket_emit client "broadcast-status"
          (broadcast_status sid jid "sent" (i + 1) total []))
      (fun e =>
        socket_emit client "broadcast-status"
          (broadcast_status sid jid "error" (i + 1) total [("error", JStr e)])) ;;;
      broadcast_loop env client sid s message total (S i) rest
  end.

(** [socket.on('broadcast')], app.js 378-397 *)
Definition on_broadcast (env : Env) (client : nat) (p : BroadcastCmd) : M unit :=
  let sid := param_default (b_sessionId p) "main" in
  let numbers := default [] (b_numbers p) in
  let message := param_default (b_message p) "" in
  try_catch (
    let* reg := gets SESSIONS in
    match reg !! sid with
    | None => socket_emit client "error-message" (JStr "session not active")
    | Some s =>
        broadcast_loop env client sid s message (List.length numbers) 0 numbers ;;;
        socket_emit client "broadcast-complete"
          (JObj [("id", JStr sid); ("total", JNum (Z.of_nat (List.length numbers)))])
    end)
  (fun e => socket_emit client "error-message" (JStr (err_text e))).

(** [socket.on('logout-session')], app.js 513-528 *)
Definition on_logout_session (env : Env) (client : nat)
    (sessionId : option string) : M unit :=
  let sid := param_default sessionId "main" in
  try_catch (
    let* reg := gets SESSIONS in
    match reg !! sid with
    | Some s =>
        ignore_errors (proto env (CLogout (sock s))) ;;;
        modify (set_SESSIONS (delete sid))
    | None => ret tt
    end ;;;
    sessionStore_updateStatus sid logged_out ;;;
    ignore_errors (clearSession sid) ;;;
    socket_emit client "success-message" (JStr "Logged out") ;;;
    io_emit "session" (session_event sid logged_out))
  (fun e => socket_emit client "error-message" (JStr (err_text e))).

(** [messageStore.history], app.js 119-125 *)
Definition messageStore_history (sid : string) (limit : option Z)
    : M (list MessageRow) :=
  let* rows := gets messages in
  lift (sql_limit limit (order_by_id_desc (of_session sid rows))).

(** [socket.on('get-history')], app.js 400-408: the rows are sent oldest
    first; [limit] is the number in the command, 200 when absent. *)
Definition on_get_history (client : nat) (sessionId : option string)
    (limit : option Z) : M unit :=
  try_catch (
    let* rows := messageStore_history (param_default sessionId "main")
                   (Some (default 200%Z limit)) in
    socket_emit client "message-history" (JArr (message_json <$> rev rows)))
  (fun e => socket_emit client "error-message" (JStr (err_text e))).

(** [app.get('/api/messages')] behind [requireApiKey], app.js 555-558.
    The handler has no [catch]: when the query throws no response is
    sent. *)
Definition api_messages (env : Env) (req : Request) : M Response :=
  if requireApiKey env req then
    let* rows := messageStore_history (or_default (q_sessionId req) "main")
                   (parseInt (or_default (q_limit req) "200")) in
    ret (mkResponse 200 (BRows rows))
  else ret unauthorized.

(** A pending timer fires: [startBaileysSession(sessionId)
    .catch(logger.error)]. *)
Definition fire_timer (env : Env) (i : nat) : M unit :=
  let* ts := gets timers in
  match ts !! i with
  | Some t =>
      modify (set_timers (delete i)) ;;;
      try_catch (startBaileysSession env (tm_sid t) (tm_client t) ;;; ret tt)
        (fun _ => ret tt)
  | None => ret tt
  end.

End App.

(** ** server.js *)

Module Server.

(** [useMultiFileAuthState(authDir(sessionId))]: the credentials kept in
    the folder of the session, if any. *)
Definition useMultiFileAuthState (sid : string) : M (option string) :=
  gets (fun st => creds st !! sid).

Definition saveCreds (sid blob : string) : M unit :=
  modify (set_creds <[sid := blob]>).

(** server.js 758-837 *)
Definition startBaileysSession (env : Env) (sid : string) (client : option nat)
    : M nat :=
  let* reg := gets SESSIONS in
  match reg !! sid with
  | Some c => ret (sock c)
  | None =>
      sessionStore_upsert sid None None loading ;;;
      let* auth := useMultiFileAuthState sid in
      let* version := fetchLatestBaileysVersion env [2; 2323; 9]%nat in
      let* h := makeWASocket env sid client auth version in
      let* t := gets now in
      modify (set_SESSIONS <[sid := mkConn h None t JUndef]>) ;;;
      ret h
  end.

Definition start_step (env : Env) (t : StartTask) : M (StartTask + nat) :=
  let sid := t_sid t in
  match t_pc t with
  | AtEntry =>
      let* reg := gets SESSIONS in
      match reg !! sid with
      | Some c => ret (inr (sock c))
      | None => ret (inl (mkTask sid (t_client t) AwaitUpsert))
      end
  | AwaitUpsert =>
      sessionStore_upsert sid None None loading ;;;
      ret (inl (mkTask sid (t_client t) AwaitAuth))
  | AwaitAuth =>
      let* auth := useMultiFileAuthState sid in
      ret (inl (mkTask sid (t_client t) (AwaitVersion auth)))
  | AwaitVersion auth =>
      let* version := fetchLatestBaileysVersion env [2; 2323; 9]%nat in
      let* h := makeWASocket env sid (t_client t) auth version in
      let* tm := gets now in
      modify (set_SESSIONS <[sid := mkConn h None tm JUndef]>) ;;;
      ret (inr h)
  end.

(** The [connection.update] listener (server.js 774-815); an exception
    leaves the listener at once. *)
Definition on_connection_update (env : Env) (sid : string) (client : option nat)
    (h : nat) (u : ConnUpdate) : M unit :=
  match qr u with
  | Some q =>
      let* qrData := lift (toDataURL env q) in
      set_lastQr sid qrData ;;;
      match client with
      | Some c => socket_emit c "qr" (JObj [("id", JStr sid); ("qr", JStr qrData)])
      | None => ret tt
      end ;;;
      io_emit "session" (session_event sid qr_received) ;;;
      sessionStore_updateStatus sid qr_received
  | None => ret tt
  end ;;;
  when (bool_decide (connection u = Some conn_open)) (
    match truthy (before_colon <$> sock_user env h) with
    | Some phone => sessionStore_setPhone sid phone
    | None => ret tt
    end ;;;
    io_emit "ready" (JObj [("id", JStr sid); ("user", user_json env h)]) ;;;
    io_emit "session" (session_event sid connected) ;;;
    sessionStore_updateStatus sid connected) ;;;
  when (bool_decide (connection u = Some conn_close)) (
    if bool_decide (statusCode u = Some DisconnectReason_loggedOut) then
      sessionStore_updateStatus sid logged_out ;;;
      io_emit "session" (session_event sid logged_out) ;;;
      modify (set_SESSIONS (delete sid))
    else
      sessionStore_updateStatus sid disconnected ;;;
      io_emit "session" (session_event sid disconnected) ;;;
      setTimeout sid client 3000).

(** The [messages.upsert] listener (server.js 818-834): only
    [messages[0]] is looked at. *)
Definition on_messages_upsert (env : Env) (sid : string) (h : nat)
    (batch : option (list WAMessage)) : M unit :=
  match default [] batch with
  | [] => ret tt
  | msg :: _ =>
      match message msg with
      | Some b =>
          if skipped msg then ret tt
          else
            let txt := message_text b in
            messageStore_insert (Some sid) dir_in (remoteJid (key msg))
              (sock_user env h) (Some txt) None ;;;
            io_emit "message"
              (JObj [("id", JStr sid); ("from", jopt (remoteJid (key msg)));
                     ("text", JStr txt)])
      | None => ret tt
      end
  end.

(** [socket.on('start-session')], server.js 844-857 *)
Definition on_start_session (env : Env) (client : nat)
    (sessionId : option string) : M unit :=
  try_catch (
    let sid := or_default sessionId "main" in
    startBaileysSession env sid (Some client) ;;;
    sessionStore_upsert sid None None loading ;;;
    socket_emit client "session" (session_event sid loading) ;;;
    let* rows := sessionStore_list in
    socket_emit client "sessions-list" rows)
  (fun e => socket_emit client "error" (JStr (err_text e))).

(** [socket.on('request-qr')], server.js 859-872 *)
Definition on_request_qr (env : Env) (client : nat)
    (sessionId : option string) : M unit :=
  try_catch (
    let sid := or_default sessionId "main" in
    let* reg := gets SESSIONS in
    match reg !! sid ≫= lastQr with
    | Some q => socket_emit client "qr" (JObj [("id", JStr sid); ("qr", JStr q)])
    | None => startBaileysSession env sid (Some client) ;;; ret tt
    end)
  (fun e => socket_emit client "error" (JStr (err_text e))).

Definition jundef (o : option string) : jval :=
  match o with Some s => JStr s | None => JUndef end.

(** [socket.on('send-message')], server.js 874-888 *)
Definition on_send_message (env : Env) (client : nat) (p : SendCmd) : M unit :=
  try_catch (
    let sid := or_default (p_sessionId p) "main" in
    let* reg := gets SESSIONS in
    match reg !! sid with
    | None => socket_emit client "error" (JStr "session not active")
    | Some s =>
        let* jid := lift (formatJid (p_to p)) in
        proto env (CSend (sock s) jid (p_message p)) ;;;
        messageStore_insert (Some sid) dir_out (sock_user env (sock s))
          (Some jid) (p_message p) None ;;;
        let sent := JObj [("id", JStr sid); ("to", JStr jid);
                          ("message", jundef (p_message p))] in
        socket_emit client "message-sent" sent ;;;
        io_emit "message-sent" sent
    end)
  (fun e => socket_emit client "error" (JStr (err_text e))).

Definition broadcast_status (sid jid st : string) (idx total : nat)
    (more : list (string * jval)) : jval :=
  JObj ([("id", JStr sid); ("to", JStr jid); ("status", JStr st);
         ("idx", JNum (Z.of_nat idx)); ("total", JNum (Z.of_nat total))] ++ more).

(** The [for] loop of [broadcast] from index [i] on, with the counter
    [success]; the result is the final value of the counter. *)
Fixpoint broadcast_loop (env : Env) (client : nat) (sid : string) (s : Connection)
    (message : option string) (total : nat) (i success : nat)
    (numbers : list string) : M nat :=
  match numbers with
  | [] => ret success
  | to :: rest =>
      let* jid := lift (formatJid (Some to)) in
      let* success' :=
        try_catch (
          proto env (CSend (sock s) jid message) ;;;
          messageStore_insert (Some sid) dir_out (sock_user env (sock s))
            (Some jid) message None ;;;
          socket_emit client "broadcast-status"
            (broadcast_status sid jid "sent" (i + 1) total []) ;;;
          ret (S success))
        (fun e =>
          socket_emit client "broadcast-status"
            (broadcast_status sid jid "error" (i + 1) total [("error", JStr e)]) ;;;
          ret success) in
      broadcast_loop env client sid s message total (S i) success' rest
  end.

(** [socket.on('broadcast')], server.js 890-913 *)
Definition on_broadcast (env : Env) (client : nat) (p : BroadcastCmd) : M unit :=
  try_catch (
    let sid := or_default (b_sessionId p) "main" in
    let* reg := gets SESSIONS in
    match reg !! sid with
    | None => socket_emit client "error" (JStr "session not active")
    | Some s =>
        match b_numbers p with
        | None => throw "Cannot read properties of undefined (reading 'length')"
        | Some numbers =>
            let total := List.length numbers in
            let* success :=
              broadcast_loop env client sid s (b_message p) total 0 0 numbers in
            socket_emit client "broadcast-complete"
              (JObj [("id", JStr sid); ("total", JNum (Z.of_nat total));
                     ("success", JNum (Z.of_nat success))])
        end
    end)
  (fun e => socket_emit client "error" (JStr (err_text e))).

(** [socket.on('logout')], server.js 915-929 *)
Definition on_logout (env : Env) (client : nat) (sessionId : option string)
    : M unit :=
  try_catch (
    let sid := or_default sessionId "main" in
    let* reg := gets SESSIONS in
    match reg !! sid with
    | Some s =>
        ignore_errors (proto env (CLogout (sock s))) ;;;
        modify (set_SESSIONS (delete sid))
    | None => ret tt
    end ;;;
    sessionStore_updateStatus sid logged_out ;;;
    socket_emit client "logged-out" (JObj [("id", JStr sid)]) ;;;
    io_emit "session" (session_event sid logged_out))
  (fun e => socket_emit client "error" (JStr (err_text e))).

(** [messageStore.list], server.js 716-722 *)
Definition messageStore_list (limit : option Z) : M (list MessageRow) :=
  let* rows := gets messages in
  lift (sql_limit limit (order_by_created_at_desc rows)).

Definition server_error (e : string) : Response :=
  mkResponse 500 (BJson (JObj [("error", JStr (err_text e))])).

(** [app.post('/api/send')] behind [requireApiKey], server.js 968-979 *)
Definition api_send (env : Env) (req : Request) : M Response :=
  if requireApiKey env req then
    try_catch (
      let sid := param_default (r_sessionId req) "main" in
      match truthy (r_to req), truthy (r_message req) with
      | Some to, Some message =>
          let* reg := gets SESSIONS in
          match reg !! sid with
          | None =>
              ret (mkResponse 404 (BJson (JObj [("error", JStr "session not active")])))
          | Some s =>
              let* jid := lift (formatJid (Some to)) in
              proto env (CSend (sock s) jid (Some message)) ;;;
              messageStore_insert (Some sid) dir_out (sock_user env (sock s))
                (Some jid) (Some message) None ;;;
              ret (mkResponse 200 (BJson (JObj [("ok", JBool true)])))
          end
      | _, _ =>
          ret (mkResponse 400 (BJson (JObj [("error", JStr "to and message required")])))
      end)
    (fun e => ret (server_error e))
  else ret unauthorized.

(** [app.get('/api/messages')] behind [requireApiKey], server.js
    1006-1011: the query string is not read. *)
Definition api_messages (env : Env) (req : Request) : M Response :=
  if requireApiKey env req then
    try_catch (
      let* rows := messageStore_list (Some 500%Z) in
      ret (mkResponse 200 (BRows rows)))
    (fun e => ret (server_error e))
  else ret unauthorized.

Definition fire_timer (env : Env) (i : nat) : M unit :=
  let* ts := gets timers in
  match ts !! i with
  | Some t =>
      modify (set_timers (delete i)) ;;;
      try_catch (startBaileysSession env (tm_sid t) (tm_client t) ;;; ret tt)
        (fun _ => ret tt)
  | None => ret tt
  end.

End Server.

(** ** Interleaving calls of [startBaileysSession]

    The event loop runs one pending call up to its next [await], then
    any other.  A schedule names, step by step, the call that runs. *)




(** The sockets made for [sid] that the protocol has not closed. *)
Definition live_sockets (sid : string) (st : State) : list SockInfo :=
  List.filter (fun s => bool_decide (s_sid s = sid) && negb (s_closed s))
              (sockets st).

(** The protocol delivers [connection.update] to the listener that the
    socket [h] was given; a close marks the socket closed. *)
Definition close_socket (h : nat) (st : State) : State :=
  set_sockets (alter (fun s => mkSock (s_sid s) (s_client s) true) h) st.

Definition deliver_update
    (listener : string -> option nat -> nat -> ConnUpdate -> M unit)
    (h : nat) (u : ConnUpdate) : M unit :=
  let* socks := gets sockets in
  match socks !! h with
  | Some s =>
      when (bool_decide (connection u = Some conn_close)) (modify (close_socket h)) ;;;
      listener (s_sid s) (s_client s) h u
  | None => ret tt
  end.

(** The final state of a handler. *)
Definition exec {A} (m : M A) (st : State) : State := (m st).1.

(** An environment in which no protocol call rejects. *)
Definition quiet_env : Env :=
  mkEnv (fun _ _ => None) (fun _ => None) [2; 3000; 1]%nat
        (fun q => Return ("data:" +:+ q)) (fun _ => None) None.

(** ** Notions used in the statements *)

(** [s.endsWith('@s.whatsapp.net') || s.endsWith('@g.us')] *)
Definition canonical (s : string) : bool :=
  endsWith s user_suffix || endsWith s group_suffix.

(** [formatJid] applied to its own result. *)
Definition formatJid_twice (x : option string) : Result string :=
  match formatJid x with
  | Return r => formatJid (Some r)
  | Throw e => Throw e
  end.

Definition not_active (client : nat) (ev : string) : Emit :=
  mkEmit (ToSocket client) ev (JStr "session not active").

Ltac run_M :=
  unfold exec, ignore_errors, when, socket_emit, io_emit, sessionStore_updateStatus,
    sessionStore_upsert, setTimeout, proto;
  unfold try_catch, bind, ret, throw, lift, gets, modify; simpl.



(** The session ["main"] registered on socket 0, as a completed start
    for the client 1 leaves it. *)
Definition main_started (step : Env -> string -> option nat -> M nat) : State :=
  exec (step quiet_env "main" (Some 1)) initial.





Definition recoverable_close (u : ConnUpdate) : Prop :=
  connection u = Some conn_close /\
  statusCode u <> Some DisconnectReason_loggedOut /\
  qr u = None.

(** The socket 0 of ["main"] opens. *)
Definition opened (listener : Env -> string -> option nat -> nat -> ConnUpdate -> M unit)
    (st : State) : State :=
  exec (deliver_update (listener quiet_env) 0 (mkUpdate (Some conn_open) None None)) st.

(** The connection of ["main"] drops with status code 428 (connection
    closed). *)
Definition dropped (listener : Env -> string -> option nat -> nat -> ConnUpdate -> M unit)
    (st : State) : State :=
  exec (deliver_update (listener quiet_env) 0
          (mkUpdate (Some conn_close) (Some 428%Z) None)) st.

(** One call run through its phases with nothing in between. *)
Fixpoint run_task (step : StartTask -> M (StartTask + nat)) (fuel : nat)
    (t : StartTask) : M (option nat) :=
  match fuel with
  | O => ret None
  | S n =>
      let* r := step t in
      match r with
      | inr h => ret (Some h)
      | inl t' => run_task step n t'
      end
  end.

Definition returned (r : State * Result nat) : State * Result (option nat) :=
  (r.1, match r.2 with Return h => Return (Some h) | Throw e => Throw e end).




(** The protocol refuses every send to [6282]. *)
Definition second_fails : Env :=
  mkEnv (fun _ c => match c with
                    | CSend _ "6282@s.whatsapp.net" _ => Some "not on WhatsApp"
                    | _ => None
                    end)
        (fun _ => None) [2; 3000; 1]%nat (fun q => Return q) (fun _ => None) None.

Definition three_numbers : BroadcastCmd :=
  mkBroadcast (Some "main") (Some ["6281"; "6282"; "6283"]) (Some "hello").

(** The canonical address of a non-empty recipient. *)
Definition jid_of (n : string) : string :=
  match formatJid (Some n) with Return j => j | Throw _ => "" end.

(** The progress event for the recipient at index [i]; [o] is [None]
    when the send went through and the error message when it did not. *)
Definition progress_event (client : nat) (sid : string) (total i : nat)
    (n : string) (o : option string) : Emit :=
  mkEmit (ToSocket client) "broadcast-status"
    (match o with
     | None => Server.broadcast_status sid (jid_of n) "sent" (i + 1) total []
     | Some e => Server.broadcast_status sid (jid_of n) "error" (i + 1) total
                   [("error", JStr e)]
     end).

Fixpoint progress (client : nat) (sid : string) (total i : nat)
    (ns : list string) (os : list (option string)) : list Emit :=
  match ns, os with
  | n :: ns', o :: os' =>
      progress_event client sid total i n o :: progress client sid total (S i) ns' os'
  | _, _ => []
  end.

Definition sent_count (os : list (option string)) : nat :=
  List.length (List.filter (fun o => match o with None => true | Some _ => false end) os).

Definition complete_event (client : nat) (sid : string) (total success : nat) : Emit :=
  mkEmit (ToSocket client) "broadcast-complete"
    (JObj [("id", JStr sid); ("total", JNum (Z.of_nat total));
           ("success", JNum (Z.of_nat success))]).

Definition kept (batch : list WAMessage) : list WAMessage :=
  List.filter (fun m => negb (skipped m)) batch.

Definition payload_field (k : string) (e : Emit) : option jval :=
  match payload e with
  | JObj fs => field k fs
  | _ => None
  end.

Definition text_msg (from txt : string) : WAMessage :=
  mkMsg (mkKey (Some from) false (Some "3EB0"))
        (Some (mkBody (Some txt) None None false)).

Definition response_rows (r : State * Result Response) : list MessageRow :=
  match r.2 with
  | Return (mkResponse _ (BRows rows)) => rows
  | _ => []
  end.

(** The log holds one message of session ["a"], then one of ["b"]. *)
Definition two_session_log : State :=
  exec (modify (set_now 10) ;;;
        messageStore_insert (Some "a") dir_in (Some "6281@s.whatsapp.net") None
          (Some "first") None ;;;
        modify (set_now 20) ;;;
        messageStore_insert (Some "b") dir_in (Some "6282@s.whatsapp.net") None
          (Some "second") None) initial.

Definition history_request : Request :=
  mkRequest (Some "changeme123") None (Some "a") (Some "1") None None None.

Definition bad_request : Response :=
  mkResponse 400 (BJson (JObj [("error", JStr "to and message required")])).

Definition send_without_message : SendCmd := mkSend None (Some "6281") None.

(** ** The remaining store-only handlers *)

(** [for (const x of l) await f(x)] *)
Fixpoint for_each {A} (f : A -> M unit) (l : list A) : M unit :=
  match l with
  | [] => ret tt
  | x :: r => f x ;;; for_each f r
  end.

(** The rows of [SELECT * FROM sessions], in the order of the model. *)
Definition sessionStore_rows : M (list (string * SessionRow)) :=
  gets (fun st => map_to_list (sessions st)).

(** [socket.on('list-sessions')], app.js 530-537 *)
Definition app_on_list_sessions (client : nat) : M unit :=
  try_catch (
    let* rows := sessionStore_list in
    socket_emit client "sessions-list" rows)
  (fun e => socket_emit client "error-message" (JStr (err_text e))).

(** [app.get('/api/sessions')], app.js 550-553 *)
Definition app_api_sessions (env : Env) (req : Request) : M Response :=
  if requireApiKey env req then
    let* rows := sessionStore_list in
    ret (mkResponse 200 (BJson rows))
  else ret unauthorized.

(** [socket.on('list-sessions')], server.js 931-938 *)
Definition server_on_list_sessions (client : nat) : M unit :=
  try_catch (
    let* rows := sessionStore_list in
    socket_emit client "sessions-list" rows)
  (fun e => socket_emit client "error" (JStr (err_text e))).

(** The event [refresh-status] sends for one row. *)
Definition status_event (kv : string * SessionRow) : jval :=
  JObj [("id", JStr kv.1); ("status", JStr (status_name (status kv.2)));
        ("phone_number", jopt (phone_number kv.2))].

(** [socket.on('refresh-status')], server.js 940-947 *)
Definition server_on_refresh_status (client : nat) : M unit :=
  try_catch (
    let* rows := sessionStore_rows in
    for_each (fun r => socket_emit client "session" (status_event r)) rows)
  (fun e => socket_emit client "error" (JStr (err_text e))).

(** [app.get('/api/sessions')], server.js 961-966 *)
Definition server_api_sessions (env : Env) (req : Request) : M Response :=
  if requireApiKey env req then
    try_catch (
      let* rows := sessionStore_list in
      ret (mkResponse 200 (BJson rows)))
    (fun e => ret (Server.server_error e))
  else ret unauthorized.

(** ** The server as a machine

    What reaches the process: a socket.io event of a browser, an event
    of a Baileys socket, a timer that fires, an HTTP request, or time
    passing.  A socket.io event without a listener and a route that is
    not mounted do nothing. *)

Inductive Command : Type :=
| start_session (sessionId : option string)
| request_qr (sessionId : option string)
| send_message (p : SendCmd)
| broadcast (p : BroadcastCmd)
| get_history (sessionId : option string) (limit : option Z)
| logout_session (sessionId : option string)
| logout (sessionId : option string)
| list_sessions
| refresh_status.

Inductive ProtoEvent : Type :=
| connection_update (u : ConnUpdate)
| messages_upsert (batch : option (list WAMessage))
| creds_update (blob : string).

Inductive Route : Set :=
| get_api_sessions
| get_api_messages
| post_api_send.

Inductive Input : Type :=
| FromClient (client : nat) (c : Command)
| FromProtocol (h : nat) (e : ProtoEvent)
| TimerFires (i : nat)
| Http (r : Route) (req : Request)
| ClockTick (t : N).

(** The listeners of a socket run for the session the socket was made
    for. *)
Definition deliver (h : nat) (listener : string -> option nat -> M unit) : M unit :=
  let* socks := gets sockets in
  match socks !! h with
  | Some s => listener (s_sid s) (s_client s)
  | None => ret tt
  end.

(** The answer of a route is sent to the HTTP client; an exception that
    leaves the route is an unhandled rejection. *)
Definition served {A} (m : M A) : M unit :=
  try_catch (m ;;; ret tt) (fun _ => ret tt).

Definition app_step (env : Env) (i : Input) : M unit :=
  match i with
  | FromClient c (start_session sid) => App.on_start_session env c sid
  | FromClient c (request_qr sid) => App.on_request_qr env c sid
  | FromClient c (send_message p) => App.on_send_message env c p
  | FromClient c (broadcast p) => App.on_broadcast env c p
  | FromClient c (get_history sid limit) => App.on_get_history c sid limit
  | FromClient c (logout_session sid) => App.on_logout_session env c sid
  | FromClient c list_sessions => app_on_list_sessions c
  | FromClient _ (logout _) | FromClient _ refresh_status => ret tt
  | FromProtocol h (connection_update u) =>
      deliver_update (App.on_connection_update env) h u
  | FromProtocol h (messages_upsert batch) =>
      deliver h (fun sid _ => App.on_messages_upsert env sid h batch)
  | FromProtocol h (creds_update blob) =>
      deliver h (fun sid _ => App.saveCreds sid blob)
  | TimerFires n => App.fire_timer env n
  | Http get_api_sessions req => served (app_api_sessions env req)
  | Http get_api_messages req => served (App.api_messages env req)
  | Http post_api_send _ => ret tt
  | ClockTick t => modify (set_now t)
  end.

Definition server_step (env : Env) (i : Input) : M unit :=
  match i with
  | FromClient c (start_session sid) => Server.on_start_session env c sid
  | FromClient c (request_qr sid) => Server.on_request_qr env c sid
  | FromClient c (send_message p) => Server.on_send_message env c p
  | FromClient c (broadcast p) => Server.on_broadcast env c p
  | FromClient c (logout sid) => Server.on_logout env c sid
  | FromClient c list_sessions => server_on_list_sessions c
  | FromClient c refresh_status => server_on_refresh_status c
  | FromClient _ (get_history _ _) | FromClient _ (logout_session _) => ret tt
  | FromProtocol h (connection_update u) =>
      deliver_update (Server.on_connection_update env) h u
  | FromProtocol h (messages_upsert batch) =>
      deliver h (fun sid _ => Server.on_messages_upsert env sid h batch)
  | FromProtocol h (creds_update blob) =>
      deliver h (fun sid _ => Server.saveCreds sid blob)
  | TimerFires n => Server.fire_timer env n
  | Http get_api_sessions req => served (server_api_sessions env req)
  | Http get_api_messages req => served (Server.api_messages env req)
  | Http post_api_send req => served (Server.api_send env req)
  | ClockTick t => modify (set_now t)
  end.

(** The states the process can be in: from the empty one, any inputs. *)
Inductive reachable (step : Input -> M unit) : State -> Prop :=
| reach_initial : reachable step initial
| reach_step st i : reachable step st -> reachable step (exec (step i) st).

(** A run: the inputs handled one after the other. *)
Definition run (step : Input -> M unit) (inputs : list Input) (st : State) : State :=
  fold_left (fun acc i => exec (step i) acc) inputs st.

(** *** Invariants of the machine *)

(** Every registry entry names a socket that was made for its session. *)
Definition registry_ok (st : State) : Prop :=
  forall sid c, SESSIONS st !! sid = Some c ->
    exists s, sockets st !! sock c = Some s /\ s_sid s = sid.

(** Every session in the registry has a row in [sessions]. *)
Definition recorded (st : State) : Prop :=
  forall sid, is_Some (SESSIONS st !! sid) -> is_Some (sessions st !! sid).

Definition older_id (a b : MessageRow) : Prop := (id a < id b)%N.

(** The ids of [messages] grow along the table and stay below the next
    auto-increment value. *)
Definition table_ok (st : State) : Prop :=
  StronglySorted older_id (messages st) /\
  Forall (fun r => (id r < next_id st)%N) (messages st).

(** Every pending timer is a reconnect in 3000 ms. *)
Definition timers_ok (st : State) : Prop :=
  Forall (fun t => delay_ms t = 3000%N) (timers st).

(** What a socket closes over does not change, and sockets are not
    forgotten. *)
Definition sockets_kept (st st' : State) : Prop :=
  forall h s, sockets st !! h = Some s ->
    exists s', sockets st' !! h = Some s' /\ s_sid s' = s_sid s /\
               s_client s' = s_client s /\ (s_closed s = true -> s_closed s' = true).

(** Nothing that was stored, sent or called is taken back. *)
Definition grows (st st' : State) : Prop :=
  messages st `prefix_of` messages st' /\
  emitted st `prefix_of` emitted st' /\
  calls st `prefix_of` calls st' /\
  dom (sessions st) ⊆ dom (sessions st') /\
  (next_id st <= next_id st')%N /\
  sockets_kept st st'.

(** [m] keeps [P]. *)
Definition keeps {A} (P : State -> Prop) (m : M A) : Prop :=
  forall st, P st -> P (m st).1.

(** A property that every elementary effect of the handlers keeps, as
    long as the registry and [sessions] are written for the sessions
    [ok] only. *)
Class Stable (ok : string -> Prop) (P : State -> Prop) : Prop := {
  stable_emit e st : P st -> P (add_emit e st);
  stable_call c st : P st -> P (add_call c st);
  stable_now t st : P st -> P (set_now t st);
  stable_creds f st : P st -> P (set_creds f st);
  stable_timer t st : delay_ms t = 3000%N -> P st -> P (set_timers (fun l => l ++ [t]) st);
  stable_timer_gone n st : P st -> P (set_timers (delete n) st);
  stable_message sid d from to txt media st :
    P st -> P (add_message (fun i t => mkMessage i sid d from to txt media t) st);
  stable_upsert sid row st : ok sid -> P st -> P (set_sessions <[sid := row]> st);
  stable_alter f sid st : ok sid -> P st -> P (set_sessions (alter f sid) st);
  stable_delete sid st : ok sid -> P st -> P (set_SESSIONS (delete sid) st);
  stable_touch sid c c' st :
    ok sid -> SESSIONS st !! sid = Some c -> sock c' = sock c ->
    P st -> P (set_SESSIONS <[sid := c']> st);
  stable_socket sid client st :
    P st -> P (set_sockets (fun l => l ++ [mkSock sid client false]) st);
  stable_register sid c st :
    ok sid ->
    (exists s, sockets st !! sock c = Some s /\ s_sid s = sid) ->
    is_Some (sessions st !! sid) ->
    P st -> P (set_SESSIONS <[sid := c]> st);
  stable_close h st : P st -> P (close_socket h st)
}.

(** A property that holds whatever session is written. *)
Abbreviation Invariant := (Stable (fun _ => True)).

(** A day in the life of ["main"]: started by one browser, asked for a
    second time by another, connected, a message in, a broadcast out, a
    drop, the timer, a logout. *)
Definition a_day : list Input :=
  [FromClient 1 (start_session None);
   FromClient 2 (request_qr (Some "main"));
   FromProtocol 0 (connection_update (mkUpdate None None (Some "2@abc")));
   FromProtocol 0 (connection_update (mkUpdate (Some conn_open) None None));
   FromProtocol 0 (messages_upsert (Some [text_msg "6281@s.whatsapp.net" "hi"]));
   FromClient 1 (broadcast three_numbers);
   FromProtocol 0 (connection_update (mkUpdate (Some conn_close) (Some 428%Z) None));
   TimerFires 0;
   FromClient 1 (logout_session None);
   FromClient 1 (logout None)].

(** *** Notions for the statements about single handlers *)



(** The protocol never refuses to make a socket. *)
Definition makes_sockets (env : Env) : Prop :=
  forall past sid auth version, rejects env past (CMakeSocket sid auth version) = None.

(** The rows of [rows] from the [n]-th last on. *)
Definition last_rows (n : nat) (rows : list MessageRow) : list MessageRow :=
  drop (List.length rows - n) rows.

(** The events a handler added. *)
Definition new_events (st st' : State) : list Emit :=
  drop (List.length (emitted st)) (emitted st').

Definition new_rows (st st' : State) : list MessageRow :=
  drop (List.length (messages st)) (messages st').

Definition new_calls (st st' : State) : list ProtoCall :=
  drop (List.length (calls st)) (calls st').


Definition open_update : ConnUpdate := mkUpdate (Some conn_open) None None.

(** The other sessions: their registry entries and rows are as before. *)
Definition others_untouched (sid : string) (st st' : State) : Prop :=
  forall sid', sid' <> sid ->
    SESSIONS st' !! sid' = SESSIONS st !! sid' /\
    sessions st' !! sid' = sessions st !! sid'.

(** The session an input is about: the one a command names, the one the
    socket of a protocol event or a timer was made for. *)
Definition app_command_session (c : Command) : option string :=
  match c with
  | start_session sid => Some (or_default sid "main")
  | request_qr sid | get_history sid _ | logout_session sid =>
      Some (param_default sid "main")
  | send_message p => Some (param_default (p_sessionId p) "main")
  | broadcast p => Some (param_default (b_sessionId p) "main")
  | logout _ | list_sessions | refresh_status => None
  end.

Definition server_command_session (c : Command) : option string :=
  match c with
  | start_session sid | request_qr sid | logout sid => Some (or_default sid "main")
  | send_message p => Some (or_default (p_sessionId p) "main")
  | broadcast p => Some (or_default (b_sessionId p) "main")
  | get_history _ _ | logout_session _ | list_sessions | refresh_status => None
  end.

Definition input_session (of_command : Command -> option string) (st : State)
    (i : Input) : option string :=
  match i with
  | FromClient _ c => of_command c
  | FromProtocol h _ => s_sid <$> sockets st !! h
  | TimerFires n => tm_sid <$> timers st !! n
  | Http post_api_send req => Some (param_default (r_sessionId req) "main")
  | Http _ _ | ClockTick _ => None
  end.

(** ["main"] after the [start-session] of the client 1, on app.js and on
    server.js. *)
Definition app_started : State :=
  run (app_step quiet_env) [FromClient 1 (start_session None)] initial.

Definition server_started : State :=
  run (server_step quiet_env) [FromClient 1 (start_session None)] initial.

(** ["main"] on app.js after a start, a recoverable close and a logout:
    no registry entry, one timer pending. *)
Definition app_logged_out_with_timer : State :=
  run (app_step quiet_env)
    [FromClient 1 (start_session None);
     FromProtocol 0 (connection_update (mkUpdate (Some conn_close) (Some 428%Z) None));
     FromClient 1 (logout_session None)] initial.

(** The phone number read off [sock.user.id]. *)
Definition phone_of (env : Env) (h : nat) : option string :=
  truthy (before_colon <$> sock_user env h).

Definition with_phone (phone : option string) (r : SessionRow) : SessionRow :=
  mkSession (user_id r) (from_option Some (phone_number r) phone) (status r).

(** * The dashboard page (public/js/dashboard.js) *)

Module Dashboard.

(** The character class of [/[,\\n]+/] in the regular-expression
    literal: a comma (44), a backslash (92) and the letter n (110). *)
Definition is_sep (c : ascii) : bool :=
  let n := N_of_ascii c in ((n =? 44) || (n =? 92) || (n =? 110))%N.

Definition starts_with_sep (s : string) : bool :=
  match s with
  | String c _ => is_sep c
  | EmptyString => false
  end.

(** [raw.split(/[,\\n]+/)]: the pieces between the maximal runs of
    separators; a run at either end of the string leaves an empty piece
    there, and a string without separators is its own single piece. *)
Fixpoint split (s : string) : list string :=
  match s with
  | EmptyString => [""]
  | String c r =>
      match split r with
      | piece :: more =>
          if is_sep c then
            if starts_with_sep r then piece :: more else "" :: piece :: more
          else String c piece :: more
      | [] => []
      end
  end.




End Dashboard.



(** * Group, presence and profile commands; uploads

    The remaining socket commands of app.js and the two upload routes
    call protocol methods of their own and use the upload directory.
    [World] puts both beside the process state. *)

Inductive Call : Set :=
| groupCreate (h : nat) (subject : option string) (participants : list string)
| groupAdd (h : nat) (groupJid : option string) (participants : list string)
| groupMakeAdmin (h : nat) (groupJid : option string) (participants : list string)
| groupDemoteAdmin (h : nat) (groupJid : option string) (participants : list string)
| sendPresenceUpdate (h : nat) (kind : string) (jid : string)
| updateBlockStatus (h : nat) (jid : string) (action : string)
| profilePictureUrl (h : nat) (jid : string)
| sendReadReceipt (h : nat) (jid : string)
| sendDocument (h : nat) (jid : string) (buffer : string)
| sendImage (h : nat) (jid : string) (buffer : string) (caption : string).

Record World : Type := mkWorld {
  proc : State;
  (** the calls of the methods above, oldest first *)
  asked : list Call;
  (** the upload directory: path to file content *)
  uploads : gmap string string
}.

Definition set_proc (f : State -> State) (w : World) : World :=
  mkWorld (f (proc w)) (asked w) (uploads w).

Definition add_asked (c : Call) (w : World) : World :=
  mkWorld (proc w) (asked w ++ [c]) (uploads w).

Definition set_uploads (f : gmap string string -> gmap string string) (w : World) : World :=
  mkWorld (proc w) (asked w) (f (uploads w)).

Record Outside : Type := mkOutside {
  (** [refuses past c = Some msg]: the call [c], made after the calls
      [past], rejects with [new Error(msg)]. *)
  refuses : list Call -> Call -> option string;
  (** what [groupCreate] resolves to *)
  created : option string -> list string -> jval;
  (** what [profilePictureUrl] resolves to *)
  picture : nat -> string -> jval;
  (** [sock.store?.contacts?.[jid]], [None] when there is none *)
  vcard : nat -> string -> option jval
}.

Definition W (A : Type) : Type := World -> World * Result A.

Definition wret {A} (a : A) : W A := fun w => (w, Return a).

Definition wbind {A B} (m : W A) (k : A -> W B) : W B :=
  fun w =>
    match m w with
    | (w', Return a) => k a w'
    | (w', Throw e) => (w', Throw e)
    end.

(** [try { m } catch (e) { h e }] *)
Definition wtry {A} (m : W A) (h : string -> W A) : W A :=
  fun w =>
    match m w with
    | (w', Throw e) => h e w'
    | r => r
    end.

(** [try { m } finally { f }] around a body that has returned or thrown *)
Definition finally {A} (m : W A) (f : W unit) : W A :=
  fun w =>
    match m w with
    | (w', r) =>
        match f w' with
        | (w'', Return _) => (w'', r)
        | (w'', Throw e) => (w'', Throw e)
        end
    end.

Notation "'let+' x ':=' m 'in' k" := (wbind m (fun x => k))
  (at level 10, x pattern, m at level 100, k at level 200).
Notation "m ';;+' k" := (wbind m (fun _ => k))
  (at level 100, k at level 200, right associativity).

(** A step of the process state taken inside the world. *)
Definition in_app {A} (m : M A) : W A :=
  fun w => match m (proc w) with (st, r) => (mkWorld st (asked w) (uploads w), r) end.

(** A call of a protocol method. *)
Definition ask (out : Outside) (c : Call) : W unit :=
  fun w =>
    match refuses out (asked w) c with
    | None => (add_asked c w, Return tt)
    | Some e => (add_asked c w, Throw e)
    end.

(** [list.map(p => formatJid(p))]: the first failure is thrown. *)
Fixpoint format_all (l : list string) : Result (list string) :=
  match l with
  | [] => Return []
  | p :: rest =>
      match formatJid (Some p) with
      | Throw e => Throw e
      | Return j =>
          match format_all rest with
          | Throw e => Throw e
          | Return js => Return (j :: js)
          end
      end
  end.

(** A field of a command as it is sent back: [undefined] when absent. *)
Definition sent_back (o : option string) : jval :=
  match o with Some s => JStr s | None => JUndef end.

Module Groups.

Definition emit (client : nat) (ev : string) (p : jval) : W unit :=
  in_app (socket_emit client ev p).

Definition failed (client : nat) (e : string) : W unit :=
  emit client "error-message" (JStr (err_text e)).

(** [socket.on('create-group')], app.js 427-435 *)
Definition on_create_group (out : Outside) (client : nat)
    (sessionId subject : option string) (participants : option (list string)) : W unit :=
  let sid := param_default sessionId "main" in
  wtry (
    let+ reg := in_app (gets SESSIONS) in
    match reg !! sid with
    | None => emit client "error-message" (JStr "session not active")
    | Some s =>
        let+ ps := in_app (lift (format_all (default [] participants))) in
        ask out (groupCreate (sock s) subject ps) ;;+
        emit client "group-created" (created out subject ps)
    end)
  (failed client).

(** [socket.on('group-add')], app.js 437-445 *)
Definition on_group_add (out : Outside) (client : nat)
    (sessionId groupJid : option string) (participants : option (list string)) : W unit :=
  let sid := param_default sessionId "main" in
  wtry (
    let+ reg := in_app (gets SESSIONS) in
    match reg !! sid with
    | None => emit client "error-message" (JStr "session not active")
    | Some s =>
        let+ ps := in_app (lift (format_all (default [] participants))) in
        ask out (groupAdd (sock s) groupJid ps) ;;+
        emit client "success-message" (JStr "participants added")
    end)
  (failed client).

(** [socket.on('group-promote')], app.js 447-454 *)
Definition on_group_promote (out : Outside) (client : nat)
    (sessionId groupJid participant : option string) : W unit :=
  let sid := param_default sessionId "main" in
  wtry (
    let+ reg := in_app (gets SESSIONS) in
    match reg !! sid with
    | None => emit client "error-message" (JStr "session not active")
    | Some s =>
        let+ p := in_app (lift (formatJid participant)) in
        ask out (groupMakeAdmin (sock s) groupJid [p]) ;;+
        emit client "success-message" (JStr "promoted")
    end)
  (failed client).

(** [socket.on('group-demote')], app.js 455-462 *)
Definition on_group_demote (out : Outside) (client : nat)
    (sessionId groupJid participant : option string) : W unit :=
  let sid := param_default sessionId "main" in
  wtry (
    let+ reg := in_app (gets SESSIONS) in
    match reg !! sid with
    | None => emit client "error-message" (JStr "session not active")
    | Some s =>
        let+ p := in_app (lift (formatJid participant)) in
        ask out (groupDemoteAdmin (sock s) groupJid [p]) ;;+
        emit client "success-message" (JStr "demoted")
    end)
  (failed client).

(** [socket.on('send-presence')], app.js 465-471: nothing is emitted
    when the call goes through. *)
Definition on_send_presence (out : Outside) (client : nat)
    (sessionId to kind : option string) : W unit :=
  let sid := param_default sessionId "main" in
  wtry (
    let+ reg := in_app (gets SESSIONS) in
    match reg !! sid with
    | None => emit client "error-message" (JStr "session not active")
    | Some s =>
        let+ jid := in_app (lift (formatJid to)) in
        ask out (sendPresenceUpdate (sock s) (param_default kind "composing") jid)
    end)
  (failed client).

(** [socket.on('block')] and [socket.on('unblock')], app.js 474-489 *)
Definition on_block_status (action done : string) (out : Outside) (client : nat)
    (sessionId jid : option string) : W unit :=
  let sid := param_default sessionId "main" in
  wtry (
    let+ reg := in_app (gets SESSIONS) in
    match reg !! sid with
    | None => emit client "error-message" (JStr "session not active")
    | Some s =>
        let+ j := in_app (lift (formatJid jid)) in
        ask out (updateBlockStatus (sock s) j action) ;;+
        emit client "success-message" (JStr done)
    end)
  (failed client).

Definition on_block : Outside -> nat -> option string -> option string -> W unit :=
  on_block_status "block" "Blocked".

Definition on_unblock : Outside -> nat -> option string -> option string -> W unit :=
  on_block_status "unblock" "Unblocked".

(** [socket.on('get-profile')], app.js 492-500: a rejected picture
    lookup gives [null]. *)
Definition on_get_profile (out : Outside) (client : nat)
    (sessionId jid : option string) : W unit :=
  let sid := param_default sessionId "main" in
  wtry (
    let+ reg := in_app (gets SESSIONS) in
    match reg !! sid with
    | None => emit client "error-message" (JStr "session not active")
    | Some s =>
        let+ j := in_app (lift (formatJid jid)) in
        let+ ppUrl :=
          wtry (ask out (profilePictureUrl (sock s) j) ;;+ wret (picture out (sock s) j))
               (fun _ => wret JNull) in
        let card := default JNull (vcard out (sock s) j) in
        emit client "profile"
          (JObj [("jid", sent_back jid); ("ppUrl", ppUrl); ("vcard", card)])
    end)
  (failed client).

(** [socket.on('mark-read')], app.js 503-510 *)
Definition on_mark_read (out : Outside) (client : nat)
    (sessionId jid : option string) : W unit :=
  let sid := param_default sessionId "main" in
  wtry (
    let+ reg := in_app (gets SESSIONS) in
    match reg !! sid with
    | None => emit client "error-message" (JStr "session not active")
    | Some s =>
        let+ j := in_app (lift (formatJid jid)) in
        ask out (sendReadReceipt (sock s) j) ;;+
        emit client "success-message" (JStr "Marked as read")
    end)
  (failed client).

Inductive Command : Set :=
| create_group (sessionId subject : option string) (participants : option (list string))
| group_add (sessionId groupJid : option string) (participants : option (list string))
| group_promote (sessionId groupJid participant : option string)
| group_demote (sessionId groupJid participant : option string)
| send_presence (sessionId to kind : option string)
| block (sessionId jid : option string)
| unblock (sessionId jid : option string)
| get_profile (sessionId jid : option string)
| mark_read (sessionId jid : option string).

Definition on_command (out : Outside) (client : nat) (c : Command) : W unit :=
  match c with
  | create_group sid subject ps => on_create_group out client sid subject ps
  | group_add sid g ps => on_group_add out client sid g ps
  | group_promote sid g p => on_group_promote out client sid g p
  | group_demote sid g p => on_group_demote out client sid g p
  | send_presence sid to kind => on_send_presence out client sid to kind
  | block sid jid => on_block out client sid jid
  | unblock sid jid => on_unblock out client sid jid
  | get_profile sid jid => on_get_profile out client sid jid
  | mark_read sid jid => on_mark_read out client sid jid
  end.

(** The [sessionId] field of a command. *)
Definition session_field (c : Command) : option string :=
  match c with
  | create_group sid _ _ | group_add sid _ _ | group_promote sid _ _
  | group_demote sid _ _ | send_presence sid _ _ | block sid _ | unblock sid _
  | get_profile sid _ | mark_read sid _ => sid
  end.

End Groups.

(** ** The upload routes *)

(** [req.file] as multer leaves it, with the bytes it has written. *)
Record File : Set := mkFile {
  path : string;
  mimetype : string;
  content : string
}.

(** A multipart request: the text fields and the part named [file]. *)
Record Multipart : Set := mkMultipart {
  m_req : Request;
  m_caption : option string;
  m_file : option File
}.

(** [upload.single('file')]: the part is written to the upload
    directory before the route runs. *)
Definition upload_single (f : option File) : W unit :=
  match f with
  | Some f => fun w => (set_uploads <[path f := content f]> w, Return tt)
  | None => wret tt
  end.

Definition readFileSync (p : string) : W string :=
  fun w =>
    match uploads w !! p with
    | Some c => (w, Return c)
    | None => (w, Throw ("ENOENT: no such file or directory, open '" +:+ p +:+ "'"))
    end.

Definition existsSync (p : string) : W bool :=
  fun w => (w, Return (bool_decide (is_Some (uploads w !! p)))).

Definition unlinkSync (p : string) : W unit :=
  fun w =>
    match uploads w !! p with
    | Some _ => (set_uploads (delete p) w, Return tt)
    | None => (w, Throw ("ENOENT: no such file or directory, unlink '" +:+ p +:+ "'"))
    end.

Definition json_error (status : nat) (e : string) : Response :=
  mkResponse status (BJson (JObj [("error", JStr e)])).

Definition json_ok : Response := mkResponse 200 (BJson (JObj [("ok", JBool true)])).

(** [app.post('/api/send-media')], app.js 561-578.  The column
    [media_base64] of the inserted row is not part of [MessageRow]. *)
Definition app_api_send_media (env : Env) (out : Outside) (u : Multipart) : W Response :=
  if negb (requireApiKey env (m_req u)) then wret unauthorized
  else
    upload_single (m_file u) ;;+
    let filePath := truthy (path <$> m_file u) in
    finally
      (wtry (
         let sessionId := or_default (r_sessionId (m_req u)) "main" in
         match filePath, truthy (r_to (m_req u)), m_file u with
         | Some p, Some to, Some f =>
             let+ reg := in_app (gets SESSIONS) in
             match reg !! sessionId with
             | None => wret (json_error 404 "session not active")
             | Some s =>
                 let+ buffer := readFileSync p in
                 let+ jid := in_app (lift (formatJid (Some to))) in
                 ask out (sendDocument (sock s) jid buffer) ;;+
                 in_app (messageStore_insert (Some sessionId) dir_out
                           (sock_user env (sock s)) (Some jid) None (Some (mimetype f))) ;;+
                 wret json_ok
             end
         | _, _, _ => wret (json_error 400 "file and to required")
         end)
       (fun e => wret (json_error 500 (err_text e))))
      (match filePath with
       | Some p =>
           let+ there := existsSync p in
           if there then wtry (unlinkSync p) (fun _ => wret tt) else wret tt
       | None => wret tt
       end).

(** [app.post('/api/send-image')], server.js 982-1004 *)
Definition server_api_send_image (env : Env) (out : Outside) (u : Multipart) : W Response :=
  if negb (requireApiKey env (m_req u)) then wret unauthorized
  else
    upload_single (m_file u) ;;+
    wtry (
      let sessionId := or_default (r_sessionId (m_req u)) "main" in
      let caption := or_default (m_caption u) "" in
      match truthy (r_to (m_req u)), m_file u with
      | Some to, Some f =>
          let+ reg := in_app (gets SESSIONS) in
          match reg !! sessionId with
          | None => wret (json_error 404 "session not active")
          | Some s =>
              let filePath := path f in
              let+ buffer := readFileSync filePath in
              let+ jid := in_app (lift (formatJid (Some to))) in
              ask out (sendImage (sock s) jid buffer caption) ;;+
              in_app (messageStore_insert (Some sessionId) dir_out
                        (sock_user env (sock s)) (Some jid) (Some caption) (Some "image")) ;;+
              unlinkSync filePath ;;+
              wret json_ok
          end
      | _, _ => wret (json_error 400 "to and file required")
      end)
    (fun e => wret (json_error 500 (err_text e))).

(** ** Notions for the statements about the world *)

(** The world after [m]. *)
Definition after {A} (m : W A) (w : World) : World := (m w).1.

Definition new_asked (w w' : World) : list Call :=
  drop (List.length (asked w)) (asked w').


(** The socket a call is made on and the addresses it has taken through
    [formatJid]. *)
Definition call_socket (c : Call) : nat :=
  match c with
  | groupCreate h _ _ | groupAdd h _ _ | groupMakeAdmin h _ _ | groupDemoteAdmin h _ _
  | sendPresenceUpdate h _ _ | updateBlockStatus h _ _ | profilePictureUrl h _
  | sendReadReceipt h _ | sendDocument h _ _ | sendImage h _ _ _ => h
  end.

Definition call_addresses (c : Call) : list string :=
  match c with
  | groupCreate _ _ ps | groupAdd _ _ ps | groupMakeAdmin _ _ ps
  | groupDemoteAdmin _ _ ps => ps
  | sendPresenceUpdate _ _ j | updateBlockStatus _ j _ | profilePictureUrl _ j
  | sendReadReceipt _ j | sendDocument _ j _ | sendImage _ j _ _ => [j]
  end.

(** A protocol that accepts every call. *)
Definition quiet_outside : Outside :=
  mkOutside (fun _ _ => None) (fun _ _ => JObj []) (fun _ _ => JStr "https://pp") (fun _ _ => None).

(** A protocol that rejects every call. *)
Definition deaf_outside : Outside :=
  mkOutside (fun _ _ => Some "timed out") (fun _ _ => JObj []) (fun _ _ => JNull)
            (fun _ _ => None).

Definition world_of (st : State) : World := mkWorld st [] ∅.

Definition keyed (sid to : option string) : Request :=
  mkRequest (Some "changeme123") None None None sid to None.

Definition a_photo : File := mkFile "uploads/3f9a" "image/png" "iVBORw0KGgo=".

(** Between [st] and [st'] no event was sent and the registry, the
    sessions table, the credentials, the sockets and the timers stayed
    as they were; at most one row and one protocol call were added. *)
Definition only_sent (st st' : State) : Prop :=
  emitted st' = emitted st /\ SESSIONS st' = SESSIONS st /\ sessions st' = sessions st /\
  creds st' = creds st /\ sockets st' = sockets st /\ timers st' = timers st /\
  (List.length (new_rows st st') <= 1)%nat /\ (List.length (new_calls st st') <= 1)%nat.

(** * Properties *)

(** ** Strings *)

Section Strings.

Lemma digit_not_ws c : is_digit c = true -> is_ws c = false.
Proof. destruct c as [[] [] [] [] [] [] [] []]; vm_compute; congruence. Qed.

Lemma ws_not_digit c : is_ws c = true -> is_digit c = false.
Proof. destruct c as [[] [] [] [] [] [] [] []]; vm_compute; congruence. Qed.

Lemma eqb_empty_cons c r : String.eqb (String c r) "" = false.
Proof. reflexivity. Qed.

Lemma endsWith_refl s : endsWith s s = true.
Proof. destruct s; simpl; rewrite ?String.eqb_refl, ?Ascii.eqb_refl; reflexivity. Qed.

Lemma endsWith_app a b : endsWith (a +:+ b) b = true.
Proof.
  induction a as [|c a IH]; simpl.
  - apply endsWith_refl.
  - rewrite IH. apply orb_true_r.
Qed.

Lemma endsWith_nonempty s suf : suf <> "" -> endsWith s suf = true -> s <> "".
Proof.
  intros Hsuf H ->. destruct suf; [congruence|]. discriminate H.
Qed.

Lemma endsWith_cases c r suf :
  endsWith (String c r) suf = true ->
  String c r = suf \/ endsWith r suf = true.
Proof.
  intros H. change (String.eqb (String c r) suf || endsWith r suf = true) in H.
  apply orb_true_iff in H as [H|H]; [left|right; exact H].
  exact (proj1 (String.eqb_eq _ _) H).
Qed.

Lemma trimStart_idem s : trimStart (trimStart s) = trimStart s.
Proof.
  induction s as [|c r IH]; simpl; [reflexivity|].
  destruct (is_ws c) eqn:E; [exact IH|]. simpl. rewrite E. reflexivity.
Qed.

Lemma trimStart_head c r : is_ws c = false -> trimStart (String c r) = String c r.
Proof. intros E. simpl. rewrite E. reflexivity. Qed.

Lemma trimEnd_idem s : trimEnd (trimEnd s) = trimEnd s.
Proof.
  induction s as [|c r IH]; simpl; [reflexivity|].
  destruct (is_ws c && String.eqb (trimEnd r) "") eqn:E; [reflexivity|].
  simpl. rewrite IH, E. reflexivity.
Qed.

Lemma trimEnd_head c r : is_ws c = false -> trimEnd (String c r) = String c (trimEnd r).
Proof. intros E. simpl. rewrite E. reflexivity. Qed.

(** What [trimStart] returns is empty or starts with a character that is
    not white space. *)
Lemma trimStart_shape s :
  trimStart s = "" \/ exists c r, trimStart s = String c r /\ is_ws c = false.
Proof.
  induction s as [|c r IH]; simpl; [left; reflexivity|].
  destruct (is_ws c) eqn:E; [exact IH|]. right. eauto.
Qed.

Lemma trim_idem s : trim (trim s) = trim s.
Proof.
  unfold trim.
  destruct (trimStart_shape s) as [->|(c & r & -> & E)]; [reflexivity|].
  rewrite trimEnd_head by exact E. rewrite trimStart_head by exact E.
  rewrite <- (trimEnd_head c r E). apply trimEnd_idem.
Qed.

(** A string that ends with a suffix that [trimEnd] keeps is kept too. *)
Lemma trimEnd_endsWith s suf :
  suf <> "" -> trimEnd suf = suf -> endsWith s suf = true -> trimEnd s = s.
Proof.
  intros Hne Hsuf. induction s as [|c r IH]; intros H; [reflexivity|].
  destruct (endsWith_cases _ _ _ H) as [->|Hr]; [exact Hsuf|].
  simpl. rewrite (IH Hr).
  destruct r; [exfalso; exact (endsWith_nonempty _ _ Hne Hr eq_refl)|].
  rewrite eqb_empty_cons, andb_false_r. reflexivity.
Qed.

Lemma trimStart_endsWith s suf :
  trimStart suf = suf -> endsWith s suf = true -> endsWith (trimStart s) suf = true.
Proof.
  intros Hsuf. induction s as [|c r IH]; intros H; [exact H|].
  destruct (endsWith_cases _ _ _ H) as [E|Hr].
  - rewrite E, Hsuf. apply endsWith_refl.
  - simpl trimStart. destruct (is_ws c); [exact (IH Hr)|exact H].
Qed.

Lemma keep_digits_trimStart s : keep_digits (trimStart s) = keep_digits s.
Proof.
  induction s as [|c r IH]; simpl; [reflexivity|].
  destruct (is_ws c) eqn:E; [|reflexivity].
  rewrite (ws_not_digit _ E). exact IH.
Qed.

Lemma keep_digits_trimEnd s : keep_digits (trimEnd s) = keep_digits s.
Proof.
  induction s as [|c r IH]; simpl; [reflexivity|].
  destruct (is_ws c) eqn:E; simpl.
  - rewrite (ws_not_digit _ E).
    destruct (String.eqb (trimEnd r) "") eqn:E'.
    + apply String.eqb_eq in E'. rewrite <- IH, E'. reflexivity.
    + simpl. rewrite (ws_not_digit _ E). exact IH.
  - rewrite IH. reflexivity.
Qed.

Lemma keep_digits_trim s : keep_digits (trim s) = keep_digits s.
Proof. unfold trim. rewrite keep_digits_trimEnd. apply keep_digits_trimStart. Qed.

Lemma keep_digits_head s :
  keep_digits s = "" \/ exists c r, keep_digits s = String c r /\ is_digit c = true.
Proof.
  induction s as [|c r IH]; simpl; [left; reflexivity|].
  destruct (is_digit c) eqn:E; [right; eauto|exact IH].
Qed.

(** The string built for a phone number is not changed by [trim]. *)
Lemma trim_phone_jid s : trim (keep_digits s +:+ user_suffix) = keep_digits s +:+ user_suffix.
Proof.
  unfold trim.
  assert (Hs : trimStart (keep_digits s +:+ user_suffix) = keep_digits s +:+ user_suffix).
  { destruct (keep_digits_head s) as [->|(c & r & -> & E)]; [reflexivity|].
    apply trimStart_head, digit_not_ws, E. }
  rewrite Hs. apply (trimEnd_endsWith _ user_suffix); [discriminate|reflexivity|].
  apply endsWith_app.
Qed.

Lemma formatJid_nonempty s :
  s <> "" -> formatJid (Some s) =
    if endsWith (trim s) user_suffix || endsWith (trim s) group_suffix
    then Return (trim s) else Return (keep_digits (trim s) +:+ user_suffix).
Proof. destruct s; [congruence|reflexivity]. Qed.

Lemma endsWith_suffix_nonempty s :
  endsWith s user_suffix || endsWith s group_suffix = true -> s <> "".
Proof.
  intros [H|H]%orb_true_iff; eapply endsWith_nonempty; try exact H; discriminate.
Qed.

Lemma trim_canonical s :
  endsWith s user_suffix || endsWith s group_suffix = true ->
  trim s = trimStart s /\
  endsWith (trimStart s) user_suffix || endsWith (trimStart s) group_suffix = true.
Proof.
  intros H. unfold trim. apply orb_true_iff in H as [H|H].
  - pose proof (trimStart_endsWith s user_suffix eq_refl H) as H'.
    split; [|rewrite H'; reflexivity].
    apply (trimEnd_endsWith _ user_suffix); [discriminate|reflexivity|exact H'].
  - pose proof (trimStart_endsWith s group_suffix eq_refl H) as H'.
    split; [|rewrite H'; apply orb_true_r].
    apply (trimEnd_endsWith _ group_suffix); [discriminate|reflexivity|exact H'].
Qed.

(** A result of [formatJid] is a fixed point of [formatJid]. *)
Lemma formatJid_fixed x r : formatJid x = Return r -> formatJid (Some r) = Return r.
Proof.
  destruct x as [[|c s]|]; try discriminate.
  rewrite formatJid_nonempty by discriminate. set (s0 := String c s).
  destruct (endsWith (trim s0) user_suffix || endsWith (trim s0) group_suffix) eqn:E;
    intros [= <-].
  - rewrite formatJid_nonempty by exact (endsWith_suffix_nonempty _ E).
    rewrite trim_idem, E. reflexivity.
  - rewrite formatJid_nonempty.
    + rewrite trim_phone_jid, (endsWith_app _ user_suffix). reflexivity.
    + eapply endsWith_nonempty; [|apply (endsWith_app _ user_suffix)]. discriminate.
Qed.

End Strings.

(** C9, as stated, fails: a string that ends in the canonical suffix but
    starts with white space is not returned unchanged. *)
Lemma C9_leading_space_counterexample :
  ~ (forall s, endsWith s user_suffix = true -> formatJid (Some s) = Return s).
Proof.
  intros H. specialize (H " 1@s.whatsapp.net" eq_refl). vm_compute in H. discriminate.
Qed.

(** C9 (amended): an input that ends in a canonical suffix
    ([@s.whatsapp.net] or [@g.us]) once the white space around it is
    trimmed is returned trimmed, hence unchanged when it is in canonical
    form with no leading white space; any other non-empty input is
    reduced to its digits followed by [@s.whatsapp.net], as
    ["0812-345-6789"] is; and applying [formatJid] twice is applying it
    once. *)
Theorem C9_formatJid_idempotent :
  (forall s, s <> "" -> canonical (trim s) = true ->
     formatJid (Some s) = Return (trim s)) /\
  (forall s, canonical s = true -> trimStart s = s ->
     formatJid (Some s) = Return s) /\
  (forall s, s <> "" -> canonical (trim s) = false ->
     formatJid (Some s) = Return (keep_digits s +:+ user_suffix)) /\
  formatJid (Some "0812-345-6789") = Return "08123456789@s.whatsapp.net" /\
  (forall x, formatJid_twice x = formatJid x).
Proof.
  unfold canonical. split; [|split; [|split; [|split]]].
  - intros s Hne H. rewrite formatJid_nonempty by exact Hne. rewrite H. reflexivity.
  - intros s H Hs. destruct (trim_canonical s H) as [Ht Hc].
    rewrite formatJid_nonempty by exact (endsWith_suffix_nonempty _ H).
    rewrite Ht, Hc, Hs. reflexivity.
  - intros s Hne H. rewrite formatJid_nonempty by exact Hne.
    rewrite H, keep_digits_trim. reflexivity.
  - reflexivity.
  - intros x. unfold formatJid_twice. destruct (formatJid x) eqn:E; [|reflexivity].
    exact (formatJid_fixed _ _ E).
Qed.

Lemma C9_formatJid_idempotent_witness :
  formatJid (Some "6281@s.whatsapp.net ") = Return "6281@s.whatsapp.net" /\
  formatJid (Some "120363@g.us") = Return "120363@g.us" /\
  formatJid (Some "+62 812") = Return "62812@s.whatsapp.net".
Proof.
  destruct C9_formatJid_idempotent as (Ht & Hc & Hp & _).
  split; [|split].
  - apply (Ht "6281@s.whatsapp.net "); [discriminate|reflexivity].
  - apply (Hc "120363@g.us"); reflexivity.
  - apply (Hp "+62 812"); [discriminate|reflexivity].
Defined.

(** ** Sending without a live session *)



(** [POST /api/send] of server.js with the right key and both fields
    for a session without a registry entry: 404, and the state is
    untouched. *)
Lemma rest_send_not_active env req st to message :
  requireApiKey env req = true ->
  truthy (r_to req) = Some to -> truthy (r_message req) = Some message ->
  SESSIONS st !! param_default (r_sessionId req) "main" = None ->
  Server.api_send env req st =
    (st, Return (mkResponse 404 (BJson (JObj [("error", JStr "session not active")])))).
Proof.
  intros Hk Ht Hm Hs. unfold Server.api_send. rewrite Hk, Ht, Hm.
  unfold try_catch, bind, gets. rewrite Hs. reflexivity.
Qed.



(** ** Disconnects *)





(** ** Explicit logout *)



(** ** Reconnecting after a recoverable disconnect *)

(** The close branch for any other status code: the row is marked
    [disconnected], one timer of 3000 ms is added, and the registry keeps
    its entry. *)
Lemma app_recoverable_close env sid client h u st :
  recoverable_close u ->
  App.on_connection_update env sid client h u st =
    (set_timers (fun l => l ++ [mkTimer 3000 sid None])
       (add_emit (mkEmit ToAll "log"
            (JStr ("[" +:+ sid +:+ "] disconnected - will attempt reconnect in 3s")))
          (add_emit (mkEmit ToAll "session" (session_event sid disconnected))
             (set_sessions (alter (with_status disconnected) sid) st))),
     Return tt).
Proof.
  intros (Hc & Hs & Hq). unfold App.on_connection_update.
  rewrite Hc, Hq, (bool_decide_eq_false_2 _ Hs). reflexivity.
Qed.

Lemma server_recoverable_close env sid client h u st :
  recoverable_close u ->
  Server.on_connection_update env sid client h u st =
    (set_timers (fun l => l ++ [mkTimer 3000 sid client])
       (add_emit (mkEmit ToAll "session" (session_event sid disconnected))
          (set_sessions (alter (with_status disconnected) sid) st)),
     Return tt).
Proof.
  intros (Hc & Hs & Hq). unfold Server.on_connection_update.
  rewrite Hc, Hq, (bool_decide_eq_false_2 _ Hs). reflexivity.
Qed.

(** When the timer set by the close branch fires while the registry
    still holds the entry of the session, the call of
    [startBaileysSession] returns at its first line: the timer is gone
    and nothing else has changed. *)
Lemma app_retry_is_noop env sid client h u st c :
  recoverable_close u ->
  SESSIONS st !! sid = Some c ->
  let st1 := exec (App.on_connection_update env sid client h u) st in
  SESSIONS st1 = SESSIONS st /\
  sessions st1 = alter (with_status disconnected) sid (sessions st) /\
  timers st1 = timers st ++ [mkTimer 3000 sid None] /\
  exec (App.fire_timer env (List.length (timers st))) st1
    = set_timers (fun _ => timers st) st1.
Proof.
  intros Hu Hc st1. subst st1. unfold exec.
  rewrite (app_recoverable_close _ _ _ _ _ _ Hu). cbn [fst].
  repeat split. unfold App.fire_timer, App.startBaileysSession. run_M.
  rewrite list_lookup_middle by reflexivity. simpl.
  rewrite Hc. simpl. unfold set_timers. simpl.
  rewrite (delete_middle (timers st) []), app_nil_r. reflexivity.
Qed.

Lemma server_retry_is_noop env sid client h u st c :
  recoverable_close u ->
  SESSIONS st !! sid = Some c ->
  let st1 := exec (Server.on_connection_update env sid client h u) st in
  SESSIONS st1 = SESSIONS st /\
  sessions st1 = alter (with_status disconnected) sid (sessions st) /\
  timers st1 = timers st ++ [mkTimer 3000 sid client] /\
  exec (Server.fire_timer env (List.length (timers st))) st1
    = set_timers (fun _ => timers st) st1.
Proof.
  intros Hu Hc st1. subst st1. unfold exec.
  rewrite (server_recoverable_close _ _ _ _ _ _ Hu). cbn [fst].
  repeat split. unfold Server.fire_timer, Server.startBaileysSession. run_M.
  rewrite list_lookup_middle by reflexivity. simpl.
  rewrite Hc. simpl. unfold set_timers. simpl.
  rewrite (delete_middle (timers st) []), app_nil_r. reflexivity.
Qed.

(** C4 fails on the code: after a recoverable close of a connected
    session the row is marked [disconnected] and one 3000 ms timer is
    set, but when the timer fires [startBaileysSession] finds the entry
    of the closed socket still in the registry and returns it.  The
    status stays [disconnected], no socket is made, no protocol call is
    issued, and no further timer is pending.  Both entry points. *)
Theorem C4_retry_returns_closed_socket :
  (let st0 := opened App.on_connection_update (main_started App.startBaileysSession) in
   let st1 := dropped App.on_connection_update st0 in
   let st2 := exec (App.fire_timer quiet_env 0) st1 in
   status <$> sessions st0 !! "main" = Some connected /\
   status <$> sessions st1 !! "main" = Some disconnected /\
   timers st1 = [mkTimer 3000 "main" None] /\
   status <$> sessions st2 !! "main" = Some disconnected /\
   sock <$> SESSIONS st2 !! "main" = Some 0%nat /\
   live_sockets "main" st2 = [] /\
   calls st2 = calls st0 /\
   timers st2 = []) /\
  (let st0 := opened Server.on_connection_update (main_started Server.startBaileysSession) in
   let st1 := dropped Server.on_connection_update st0 in
   let st2 := exec (Server.fire_timer quiet_env 0) st1 in
   status <$> sessions st0 !! "main" = Some connected /\
   status <$> sessions st1 !! "main" = Some disconnected /\
   timers st1 = [mkTimer 3000 "main" (Some 1%nat)] /\
   status <$> sessions st2 !! "main" = Some disconnected /\
   sock <$> SESSIONS st2 !! "main" = Some 0%nat /\
   live_sockets "main" st2 = [] /\
   calls st2 = calls st0 /\
   timers st2 = []).
Proof. split; vm_compute; repeat split; reflexivity. Qed.

(** ** Starting a session *)

(** The phases are the function: four steps of a call that nothing
    interrupts give the result of [startBaileysSession]. *)
Lemma app_phases_refine env sid client st :
  run_task (App.start_step env) 4 (mkTask sid client AtEntry) st
    = returned (App.startBaileysSession env sid client st).
Proof.
  unfold App.startBaileysSession, App.start_step, returned, run_task,
    App.useMySQLAuthState, fetchLatestBaileysVersion, makeWASocket.
  run_M. destruct (SESSIONS st !! sid); [reflexivity|]. simpl.
  destruct (rejects env (calls st) CFetchVersion); simpl;
    match goal with |- context [rejects env ?l ?c] => destruct (rejects env l c) end;
    reflexivity.
Qed.

Lemma server_phases_refine env sid client st :
  run_task (Server.start_step env) 4 (mkTask sid client AtEntry) st
    = returned (Server.startBaileysSession env sid client st).
Proof.
  unfold Server.startBaileysSession, Server.start_step, returned, run_task,
    Server.useMultiFileAuthState, fetchLatestBaileysVersion, makeWASocket.
  run_M. destruct (SESSIONS st !! sid); [reflexivity|]. simpl.
  destruct (rejects env (calls st) CFetchVersion); simpl;
    match goal with |- context [rejects env ?l ?c] => destruct (rejects env l c) end;
    reflexivity.
Qed.




(** ** Broadcast *)

(** C3 fails on app.js: for three recipients of which the second is
    refused, the three [broadcast-status] events come in list order
    (sent, error, sent) and the third recipient is still served, but the
    [broadcast-complete] event carries the total only; server.js, on the
    same input, sends [success: 2] with it. *)
Theorem C3_app_summary_lacks_success_count :
  emitted (exec (App.on_broadcast second_fails 1 three_numbers)
             (main_started App.startBaileysSession)) =
    [mkEmit (ToSocket 1) "broadcast-status"
       (JObj [("id", JStr "main"); ("to", JStr "6281@s.whatsapp.net");
              ("status", JStr "sent"); ("idx", JNum 1); ("total", JNum 3)]);
     mkEmit (ToSocket 1) "broadcast-status"
       (JObj [("id", JStr "main"); ("to", JStr "6282@s.whatsapp.net");
              ("status", JStr "error"); ("idx", JNum 2); ("total", JNum 3);
              ("error", JStr "not on WhatsApp")]);
     mkEmit (ToSocket 1) "broadcast-status"
       (JObj [("id", JStr "main"); ("to", JStr "6283@s.whatsapp.net");
              ("status", JStr "sent"); ("idx", JNum 3); ("total", JNum 3)]);
     mkEmit (ToSocket 1) "broadcast-complete"
       (JObj [("id", JStr "main"); ("total", JNum 3)])] /\
  last (emitted (exec (Server.on_broadcast second_fails 1 three_numbers)
                   (main_started Server.startBaileysSession))) =
    Some (mkEmit (ToSocket 1) "broadcast-complete"
            (JObj [("id", JStr "main"); ("total", JNum 3); ("success", JNum 2)])).
Proof. split; vm_compute; reflexivity. Qed.

Lemma formatJid_jid_of n : n <> "" -> formatJid (Some n) = Return (jid_of n).
Proof.
  intros H. unfold jid_of. rewrite (formatJid_nonempty _ H).
  destruct (endsWith (trim n) user_suffix || endsWith (trim n) group_suffix); reflexivity.
Qed.

(** The loop of server.js over non-empty recipients: every recipient is
    sent to, in order, whatever the earlier outcomes; one progress event
    each; the counter grows by the number of sends that went through. *)
Lemma server_broadcast_loop env client sid s message total numbers :
  Forall (fun n => n <> "") numbers ->
  forall i success st, exists os st',
    Server.broadcast_loop env client sid s message total i success numbers st
      = (st', Return (success + sent_count os)%nat) /\
    List.length os = List.length numbers /\
    emitted st' = emitted st ++ progress client sid total i numbers os /\
    calls st' = calls st ++ ((fun n => CSend (sock s) (jid_of n) message) <$> numbers) /\
    SESSIONS st' = SESSIONS st.
Proof.
  induction 1 as [|n ns Hn _ IH]; intros i success st.
  - exists [], st. simpl. rewrite Nat.add_0_r, !app_nil_r. auto.
  - cbn [Server.broadcast_loop]. unfold bind at 1, lift at 1.
    rewrite (formatJid_jid_of _ Hn). unfold messageStore_insert. run_M.
    destruct (rejects env (calls st) (CSend (sock s) (jid_of n) message)) as [e|]; simpl.
    + match goal with |- context [Server.broadcast_loop _ _ _ _ _ _ _ _ _ ?st1] =>
        destruct (IH (S i) success st1) as (os & st' & E & Hl & He & Hc & Hs) end.
      exists (Some e :: os), st'. rewrite E, He, Hc, Hs.
      unfold progress_event, sent_count. simpl.
      rewrite Hl, <- !app_assoc. repeat split; reflexivity.
    + match goal with |- context [Server.broadcast_loop _ _ _ _ _ _ _ _ _ ?st1] =>
        destruct (IH (S i) (S success) st1) as (os & st' & E & Hl & He & Hc & Hs) end.
      exists (None :: os), st'. rewrite E, He, Hc, Hs.
      unfold progress_event, sent_count. simpl.
      rewrite Hl, <- !app_assoc, Nat.add_succ_r. repeat split; reflexivity.
Qed.

(** On server.js the broadcast does what C3 says for every list of
    non-empty recipients. *)
Lemma server_broadcast_spec env client p numbers s st :
  b_numbers p = Some numbers ->
  Forall (fun n => n <> "") numbers ->
  SESSIONS st !! or_default (b_sessionId p) "main" = Some s ->
  let sid := or_default (b_sessionId p) "main" in
  let st' := exec (Server.on_broadcast env client p) st in
  exists os,
    List.length os = List.length numbers /\
    emitted st' = emitted st ++ progress client sid (List.length numbers) 0 numbers os
                    ++ [complete_event client sid (List.length numbers) (sent_count os)] /\
    calls st' = calls st ++ ((fun n => CSend (sock s) (jid_of n) (b_message p)) <$> numbers).
Proof.
  intros Hn Hne Hs. cbv zeta.
  set (sid := or_default (b_sessionId p) "main") in *.
  destruct (server_broadcast_loop env client sid s (b_message p) (List.length numbers)
              numbers Hne 0 0 st) as (os & st1 & E & Hl & He & Hc & _).
  assert (Server.on_broadcast env client p st =
            (add_emit (complete_event client sid (List.length numbers) (sent_count os)) st1,
             Return tt)) as Hrun.
  { unfold Server.on_broadcast. fold sid. unfold try_catch, bind, gets.
    rewrite Hs, Hn, E. reflexivity. }
  exists os. unfold exec. rewrite Hrun. simpl. rewrite He, Hc, <- app_assoc. auto.
Qed.

(** The loop of app.js does the same, without a counter. *)
Lemma app_broadcast_loop env client sid s message total numbers :
  Forall (fun n => n <> "") numbers ->
  forall i st, exists os st',
    App.broadcast_loop env client sid s message total i numbers st = (st', Return tt) /\
    List.length os = List.length numbers /\
    emitted st' = emitted st ++ progress client sid total i numbers os /\
    calls st' = calls st ++ ((fun n => CSend (sock s) (jid_of n) (Some message)) <$> numbers).
Proof.
  induction 1 as [|n ns Hn _ IH]; intros i st.
  - exists [], st. simpl. rewrite !app_nil_r. auto.
  - cbn [App.broadcast_loop]. unfold bind at 1, lift at 1.
    rewrite (formatJid_jid_of _ Hn). unfold messageStore_insert. run_M.
    destruct (rejects env (calls st) (CSend (sock s) (jid_of n) (Some message)))
      as [e|]; simpl.
    + match goal with |- context [App.broadcast_loop _ _ _ _ _ _ _ _ ?st1] =>
        destruct (IH (S i) st1) as (os & st' & E & Hl & He & Hc) end.
      exists (Some e :: os), st'. rewrite E, He, Hc. simpl.
      rewrite Hl, <- !app_assoc. repeat split; reflexivity.
    + match goal with |- context [App.broadcast_loop _ _ _ _ _ _ _ _ ?st1] =>
        destruct (IH (S i) st1) as (os & st' & E & Hl & He & Hc) end.
      exists (None :: os), st'. rewrite E, He, Hc. simpl.
      rewrite Hl, <- !app_assoc. repeat split; reflexivity.
Qed.

(** On app.js the progress events are as on server.js, and the summary
    holds the session and the total, nothing more. *)
Lemma app_broadcast_spec env client p numbers s st :
  b_numbers p = Some numbers ->
  Forall (fun n => n <> "") numbers ->
  SESSIONS st !! param_default (b_sessionId p) "main" = Some s ->
  let sid := param_default (b_sessionId p) "main" in
  let st' := exec (App.on_broadcast env client p) st in
  exists os,
    List.length os = List.length numbers /\
    emitted st' = emitted st ++ progress client sid (List.length numbers) 0 numbers os
      ++ [mkEmit (ToSocket client) "broadcast-complete"
            (JObj [("id", JStr sid);
                   ("total", JNum (Z.of_nat (List.length numbers)))])].
Proof.
  intros Hn Hne Hs. cbv zeta.
  set (sid := param_default (b_sessionId p) "main") in *.
  destruct (app_broadcast_loop env client sid s (param_default (b_message p) "")
              (List.length numbers) numbers Hne 0 st) as (os & st1 & E & Hl & He & _).
  assert (App.on_broadcast env client p st =
            (add_emit (mkEmit (ToSocket client) "broadcast-complete"
               (JObj [("id", JStr sid);
                      ("total", JNum (Z.of_nat (List.length numbers)))])) st1,
             Return tt)) as Hrun.
  { unfold App.on_broadcast. fold sid. unfold try_catch, bind, gets.
    rewrite Hs, Hn. simpl. rewrite E. reflexivity. }
  exists os. unfold exec. rewrite Hrun. simpl. rewrite He, <- app_assoc. auto.
Qed.

(** A recipient that is the empty string makes [formatJid] throw outside
    the inner [try]: the loop is left, the caller gets the error and no
    summary.  Both entry points. *)
Lemma broadcast_empty_recipient_aborts :
  let p := mkBroadcast (Some "main") (Some [""; "6281"]) (Some "hello") in
  let err ev := [mkEmit (ToSocket 1) ev (JStr "missing number/jid")] in
  let a := exec (App.on_broadcast quiet_env 1 p) (main_started App.startBaileysSession) in
  let s := exec (Server.on_broadcast quiet_env 1 p) (main_started Server.startBaileysSession) in
  emitted a = err "error-message" /\ messages a = [] /\
  emitted s = err "error" /\ messages s = [].
Proof. vm_compute. repeat split; reflexivity. Qed.

(** ** Inbound messages *)

(** A message without a body, or from ['status@broadcast'], changes
    nothing.  Both entry points. *)
Lemma skipped_message_ignored env sid h msg rest st :
  skipped msg = true ->
  App.on_message env sid h msg st = (st, Return tt) /\
  Server.on_messages_upsert env sid h (Some (msg :: rest)) st = (st, Return tt).
Proof.
  intros H. unfold App.on_message, Server.on_messages_upsert. simpl.
  rewrite H. destruct (message msg); auto.
Qed.

(** The listener of app.js goes through the whole batch: the rows
    written and the events sent are those of the messages not skipped,
    in order. *)
Lemma app_messages_upsert env sid h batch :
  forall st, exists rows events,
    App.on_messages_upsert env sid h (Some batch) st =
      (mkState (SESSIONS st) (sessions st) (messages st ++ rows)
         (next_id st + N.of_nat (List.length rows)) (creds st) (sockets st) (calls st)
         (timers st) (emitted st ++ events) (now st), Return tt) /\
    from_who <$> rows = (fun m => remoteJid (key m)) <$> kept batch /\
    text <$> rows = (fun m => message_text <$> message m) <$> kept batch /\
    Forall (fun r => session_id r = Some sid) rows /\
    (fun e => (target e, name e, payload_field "from" e)) <$> events =
      (fun m => (ToAll, "message", Some (jopt (remoteJid (key m))))) <$> kept batch.
Proof.
  unfold App.on_messages_upsert. simpl.
  induction batch as [|msg rest IH]; intros st.
  - exists [], []. simpl. rewrite N.add_0_r, !app_nil_r. destruct st; auto.
  - cbn [App.on_messages_loop]. unfold kept. cbn [List.filter].
    destruct (skipped msg) eqn:Hs.
    + destruct (skipped_message_ignored env sid h msg [] st Hs) as [E _].
      unfold bind at 1. rewrite E. apply IH.
    + unfold App.on_message. rewrite Hs.
      destruct (message msg) as [b|] eqn:Hm;
        [|unfold skipped in Hs; rewrite Hm in Hs; discriminate].
      unfold messageStore_insert. run_M.
      match goal with |- context [App.on_messages_loop _ _ _ _ ?st1] =>
        destruct (IH st1) as (rows & events & E & Hf & Ht & Hsid & He) end.
      eexists (_ :: rows), (_ :: events). rewrite E.
      split; [simpl; rewrite <- !app_assoc; simpl; do 2 f_equal; lia|].
      split; [simpl; f_equal; exact Hf|].
      split; [simpl; rewrite Hm; f_equal; exact Ht|].
      split; [constructor; [reflexivity|exact Hsid]|].
      simpl. f_equal. exact He.
Qed.

(** The listener of server.js never looks past the first message. *)
Lemma server_upsert_ignores_rest env sid h msg rest st :
  Server.on_messages_upsert env sid h (Some (msg :: rest)) st =
  Server.on_messages_upsert env sid h (Some [msg]) st.
Proof. reflexivity. Qed.

(** C10 fails on server.js: of a batch of two ordinary messages only the
    first is written and announced, the second is lost; app.js, on the
    same batch, handles both. *)
Theorem C10_server_handles_first_message_only :
  let batch := [text_msg "6281@s.whatsapp.net" "one"; text_msg "6282@s.whatsapp.net" "two"] in
  let s := exec (Server.on_messages_upsert quiet_env "main" 0 (Some batch)) initial in
  let a := exec (App.on_messages_upsert quiet_env "main" 0 (Some batch)) initial in
  kept batch = batch /\
  text <$> messages s = [Some "one"] /\
  payload_field "text" <$> emitted s = [Some (JStr "one")] /\
  text <$> messages a = [Some "one"; Some "two"] /\
  payload_field "text" <$> emitted a = [Some (JStr "one"); Some (JStr "two")].
Proof. vm_compute. repeat split; reflexivity. Qed.

(** ** Message history *)

Section History.

#[local] Instance newer_id_trans : Transitive newer_id.
Proof. unfold newer_id. intros x y z. lia. Qed.

#[local] Instance newer_id_total : Total newer_id.
Proof. unfold newer_id. intros x y. lia. Qed.

(** [messageStore.history] of app.js with a limit that is not negative:
    rows of the session only, newest id first, as many as the limit
    allows, and no row left out is newer than a row returned. *)
Lemma app_history_spec sid (limit : Z) st :
  (0 <= limit)%Z ->
  exists rows,
    App.messageStore_history sid (Some limit) st = (st, Return rows) /\
    (forall r, r ∈ rows -> session_id r = Some sid /\ r ∈ messages st) /\
    StronglySorted newer_id rows /\
    List.length rows =
      Nat.min (Z.to_nat limit) (List.length (of_session sid (messages st))) /\
    (forall r r', r ∈ rows -> r' ∈ messages st -> session_id r' = Some sid ->
       r' ∉ rows -> (id r' <= id r)%N).
Proof.
  intros Hl. unfold App.messageStore_history, sql_limit, order_by_id_desc. run_M.
  rewrite (proj2 (Z.leb_le 0 limit) Hl). eexists. split; [reflexivity|].
  set (all := merge_sort newer_id (of_session sid (messages st))).
  set (n := Z.to_nat limit).
  assert (Hperm : all ≡ₚ of_session sid (messages st)) by apply merge_sort_Permutation.
  assert (Hsorted : StronglySorted newer_id (take n all ++ drop n all)).
  { rewrite take_drop. apply StronglySorted_merge_sort; apply _. }
  split; [|split; [|split]].
  - intros r Hr. apply subseteq_take in Hr. rewrite Hperm in Hr.
    apply list_elem_of_filter in Hr. tauto.
  - exact (StronglySorted_app_1_l _ _ _ Hsorted).
  - rewrite length_take. f_equal. apply Permutation_length, Hperm.
  - intros r r' Hr Hr' Hsid Hout.
    assert (r' ∈ take n all ++ drop n all) as Hin.
    { rewrite take_drop, Hperm. apply list_elem_of_filter. tauto. }
    apply elem_of_app in Hin as [Hin|Hin]; [contradiction|].
    exact (StronglySorted_app_1_elem_of _ _ _ _ _ Hsorted Hr Hin).
Qed.

End History.

(** [GET /api/messages] of app.js with the right key answers 200 with
    what [messageStore.history] returns for the session and the limit of
    the query string. *)
Lemma app_api_messages_spec env req st sid limit :
  requireApiKey env req = true ->
  or_default (q_sessionId req) "main" = sid ->
  parseInt (or_default (q_limit req) "200") = Some limit ->
  (0 <= limit)%Z ->
  exists rows,
    App.api_messages env req st = (st, Return (mkResponse 200 (BRows rows))) /\
    App.messageStore_history sid (Some limit) st = (st, Return rows).
Proof.
  intros Hk Hs Hp Hl. destruct (app_history_spec sid limit st Hl) as (rows & E & _).
  exists rows. split; [|exact E].
  unfold App.api_messages. rewrite Hk, Hs, Hp. unfold bind. rewrite E. reflexivity.
Qed.

(** The answer of [GET /api/messages] of server.js does not depend on
    the query string. *)
Lemma server_api_messages_ignores_query env st hk qk sid sid' limit limit' rs rt rm :
  Server.api_messages env (mkRequest hk qk sid limit rs rt rm) st =
  Server.api_messages env (mkRequest hk qk sid' limit' rs rt rm) st.
Proof. reflexivity. Qed.

(** C7 fails on server.js: [GET /api/messages?sessionId=a&limit=1]
    answers with both rows of the log, the row of session ["b"] first;
    neither parameter is read.  app.js answers the same request with the
    one row of session ["a"]. *)
Theorem C7_server_ignores_session_and_limit :
  session_id <$> response_rows (Server.api_messages quiet_env history_request two_session_log)
    = [Some "b"; Some "a"] /\
  session_id <$> response_rows (App.api_messages quiet_env history_request two_session_log)
    = [Some "a"].
Proof. split; vm_compute; reflexivity. Qed.

(** ** Validation of commands *)

(** [POST /api/send] of server.js checks [to] and [message] before it
    looks at the registry: 400, and the state is untouched. *)
Lemma rest_send_validates env req st :
  requireApiKey env req = true ->
  truthy (r_to req) = None \/ truthy (r_message req) = None ->
  Server.api_send env req st = (st, Return bad_request).
Proof.
  intros Hk H. unfold Server.api_send. rewrite Hk. unfold try_catch.
  destruct H as [-> | H]; [reflexivity|].
  rewrite H. destruct (truthy (r_to req)); reflexivity.
Qed.

(** A request without the right key never reaches a handler. *)
Lemma rest_requires_key env req st :
  requireApiKey env req = false ->
  Server.api_send env req st = (st, Return unauthorized) /\
  Server.api_messages env req st = (st, Return unauthorized) /\
  App.api_messages env req st = (st, Return unauthorized).
Proof.
  intros Hk. unfold Server.api_send, Server.api_messages, App.api_messages.
  rewrite Hk. auto.
Qed.

(** A socket [send-message] without [to] for a live session: [formatJid]
    throws, the caller gets ['missing number/jid'], nothing is sent or
    stored.  Both entry points. *)
Lemma socket_send_missing_to env client sessionId msg st :
  (forall s, SESSIONS st !! param_default sessionId "main" = Some s ->
     App.on_send_message env client (mkSend sessionId None msg) st =
       (add_emit (mkEmit (ToSocket client) "error-message" (JStr "missing number/jid")) st,
        Return tt)) /\
  (forall s, SESSIONS st !! or_default sessionId "main" = Some s ->
     Server.on_send_message env client (mkSend sessionId None msg) st =
       (add_emit (mkEmit (ToSocket client) "error" (JStr "missing number/jid")) st,
        Return tt)).
Proof.
  split; intros s Hs; unfold App.on_send_message, Server.on_send_message; run_M;
    rewrite Hs; reflexivity.
Qed.

(** A command that names no session is run for ["main"]. *)
Lemma absent_session_is_main env client to msg numbers st :
  App.on_send_message env client (mkSend None to msg) st =
    App.on_send_message env client (mkSend (Some "main") to msg) st /\
  Server.on_send_message env client (mkSend None to msg) st =
    Server.on_send_message env client (mkSend (Some "main") to msg) st /\
  App.on_broadcast env client (mkBroadcast None numbers msg) st =
    App.on_broadcast env client (mkBroadcast (Some "main") numbers msg) st /\
  Server.on_broadcast env client (mkBroadcast None numbers msg) st =
    Server.on_broadcast env client (mkBroadcast (Some "main") numbers msg) st /\
  App.on_start_session env client None st = App.on_start_session env client (Some "main") st /\
  Server.on_start_session env client None st =
    Server.on_start_session env client (Some "main") st /\
  App.on_request_qr env client None st = App.on_request_qr env client (Some "main") st /\
  Server.on_request_qr env client None st = Server.on_request_qr env client (Some "main") st /\
  App.on_logout_session env client None st =
    App.on_logout_session env client (Some "main") st /\
  Server.on_logout env client None st = Server.on_logout env client (Some "main") st.
Proof. repeat split; reflexivity. Qed.

(** A socket [send-message] without [message] for a live session: the
    send is made with no text, whatever the state.  Both entry points. *)
Lemma socket_send_missing_message env client sessionId to jid st :
  formatJid to = Return jid ->
  (forall s, SESSIONS st !! param_default sessionId "main" = Some s ->
     calls (exec (App.on_send_message env client (mkSend sessionId to None)) st)
       = calls st ++ [CSend (sock s) jid None]) /\
  (forall s, SESSIONS st !! or_default sessionId "main" = Some s ->
     calls (exec (Server.on_send_message env client (mkSend sessionId to None)) st)
       = calls st ++ [CSend (sock s) jid None]).
Proof.
  intros Hj. split; intros s Hs;
    unfold App.on_send_message, Server.on_send_message, messageStore_insert; run_M;
    rewrite Hs; simpl; rewrite Hj; simpl;
    destruct (rejects env (calls st) (CSend (sock s) jid None)); reflexivity.
Qed.

(** C8 fails on the socket command: a [send-message] without [message]
    for the live session ["main"] is not rejected; the protocol is asked
    to send a text that is [undefined], a row without text is written and
    the caller is told the message was sent.  Both entry points; the
    REST route [/api/send] answers the same fields with 400. *)
Theorem C8_socket_send_accepts_missing_message :
  (let st0 := main_started App.startBaileysSession in
   let st := exec (App.on_send_message quiet_env 1 send_without_message) st0 in
   calls st = calls st0 ++ [CSend 0 "6281@s.whatsapp.net" None] /\
   text <$> messages st = [None] /\
   emitted st = [mkEmit (ToSocket 1) "success-message" (JStr "Message sent")]) /\
  (let st0 := main_started Server.startBaileysSession in
   let st := exec (Server.on_send_message quiet_env 1 send_without_message) st0 in
   calls st = calls st0 ++ [CSend 0 "6281@s.whatsapp.net" None] /\
   text <$> messages st = [None] /\
   name <$> emitted st = ["message-sent"; "message-sent"]) /\
  (let st0 := main_started Server.startBaileysSession in
   Server.api_send quiet_env
     (mkRequest (Some "changeme123") None None None None (Some "6281") None) st0
   = (st0, Return bad_request)).
Proof. vm_compute. repeat split; reflexivity. Qed.

(** ** What every handler keeps *)

Section Keeps.

Context (P : State -> Prop).

Lemma keeps_ret {A} (a : A) : keeps P (ret a).
Proof. intros st H. exact H. Qed.

Lemma keeps_throw {A} e : keeps P (@throw A e).
Proof. intros st H. exact H. Qed.

Lemma keeps_lift {A} (r : Result A) : keeps P (lift r).
Proof. intros st H. exact H. Qed.

Lemma keeps_gets {A} (f : State -> A) : keeps P (gets f).
Proof. intros st H. exact H. Qed.

Lemma keeps_modify f : (forall st, P st -> P (f st)) -> keeps P (modify f).
Proof. intros Hf st H. exact (Hf st H). Qed.

Lemma keeps_bind {A B} (m : M A) (k : A -> M B) :
  keeps P m -> (forall a, keeps P (k a)) -> keeps P (bind m k).
Proof.
  intros Hm Hk st H. unfold bind. specialize (Hm st H).
  destruct (m st) as [st' [a|e]]; [exact (Hk a st' Hm)|exact Hm].
Qed.

Lemma keeps_try_catch {A} (m : M A) (h : string -> M A) :
  keeps P m -> (forall e, keeps P (h e)) -> keeps P (try_catch m h).
Proof.
  intros Hm Hh st H. unfold try_catch. specialize (Hm st H).
  destruct (m st) as [st' [a|e]]; [exact Hm|exact (Hh e st' Hm)].
Qed.

Lemma keeps_ignore_errors (m : M unit) : keeps P m -> keeps P (ignore_errors m).
Proof. intros Hm. apply keeps_try_catch; [exact Hm|intros ?; apply keeps_ret]. Qed.

Lemma keeps_when b (m : M unit) : keeps P m -> keeps P (when b m).
Proof. intros Hm. destruct b; [exact Hm|apply keeps_ret]. Qed.

Lemma keeps_served {A} (m : M A) : keeps P m -> keeps P (served m).
Proof.
  intros Hm. apply keeps_try_catch; [|intros ?; apply keeps_ret].
  apply keeps_bind; [exact Hm|intros ?; apply keeps_ret].
Qed.

Lemma keeps_for_each {A} (f : A -> M unit) l :
  (forall x, keeps P (f x)) -> keeps P (for_each f l).
Proof.
  intros Hf. induction l as [|x r IH]; [apply keeps_ret|].
  apply keeps_bind; [apply Hf|intros _; exact IH].
Qed.

Lemma keeps_deliver h listener :
  (forall sid client, keeps P (listener sid client)) -> keeps P (deliver h listener).
Proof.
  intros Hl. apply keeps_bind; [apply keeps_gets|].
  intros socks. destruct (socks !! h); [apply Hl|apply keeps_ret].
Qed.

Context (ok : string -> Prop) `{!Stable ok P}.

Lemma keeps_socket_emit c ev p : keeps P (socket_emit c ev p).
Proof. apply keeps_modify. intros st. apply (stable_emit (ok:=ok)). Qed.

Lemma keeps_io_emit ev p : keeps P (io_emit ev p).
Proof. apply keeps_modify. intros st. apply (stable_emit (ok:=ok)). Qed.

Lemma keeps_proto env c : keeps P (proto env c).
Proof.
  intros st H. unfold proto.
  destruct (rejects env (calls st) c); apply (stable_call (ok:=ok)), H.
Qed.

Lemma keeps_upsert sid uid phone s :
  ok sid -> keeps P (sessionStore_upsert sid uid phone s).
Proof. intros Hok. apply keeps_modify. intros st. apply stable_upsert, Hok. Qed.

Lemma keeps_updateStatus sid s : ok sid -> keeps P (sessionStore_updateStatus sid s).
Proof. intros Hok. apply keeps_modify. intros st. apply stable_alter, Hok. Qed.

Lemma keeps_setPhone sid phone : ok sid -> keeps P (sessionStore_setPhone sid phone).
Proof. intros Hok. apply keeps_modify. intros st. apply stable_alter, Hok. Qed.

Lemma keeps_insert sid d from to txt media :
  keeps P (messageStore_insert sid d from to txt media).
Proof. apply keeps_modify. intros st. apply (stable_message (ok:=ok)). Qed.

Lemma keeps_setTimeout sid client : keeps P (setTimeout sid client 3000).
Proof. apply keeps_modify. intros st. apply (stable_timer (ok:=ok)). reflexivity. Qed.

Lemma keeps_timer_gone n : keeps P (modify (set_timers (delete n))).
Proof. apply keeps_modify. intros st. apply (stable_timer_gone (ok:=ok)). Qed.

Lemma keeps_creds f : keeps P (modify (set_creds f)).
Proof. apply keeps_modify. intros st. apply (stable_creds (ok:=ok)). Qed.

Lemma keeps_now t : keeps P (modify (set_now t)).
Proof. apply keeps_modify. intros st. apply (stable_now (ok:=ok)). Qed.

Lemma keeps_close h : keeps P (modify (close_socket h)).
Proof. apply keeps_modify. intros st. apply (stable_close (ok:=ok)). Qed.

Lemma keeps_set_lastQr sid q : ok sid -> keeps P (set_lastQr sid q).
Proof.
  intros Hok st H. unfold set_lastQr.
  destruct (SESSIONS st !! sid) as [c|] eqn:E; [|exact H].
  apply (stable_touch (P:=P) sid c); [exact Hok|exact E|reflexivity|exact H].
Qed.

Lemma keeps_set_contacts sid cs : ok sid -> keeps P (set_contacts sid cs).
Proof.
  intros Hok st H. unfold set_contacts.
  destruct (SESSIONS st !! sid) as [c|] eqn:E; [|exact H].
  apply (stable_touch (P:=P) sid c); [exact Hok|exact E|reflexivity|exact H].
Qed.

Lemma keeps_delete_entry sid : ok sid -> keeps P (modify (set_SESSIONS (delete sid))).
Proof. intros Hok. apply keeps_modify. intros st. apply stable_delete, Hok. Qed.

Lemma keeps_fetch env fallback : keeps P (fetchLatestBaileysVersion env fallback).
Proof.
  apply keeps_try_catch; [|intros ?; apply keeps_ret].
  apply keeps_bind; [apply keeps_proto|intros ?; apply keeps_ret].
Qed.

(** The last steps of a start: the socket is made and registered under
    the session whose row was written before. *)
Lemma keeps_register env sid client auth version (cs : jval) :
  ok sid ->
  forall st, is_Some (sessions st !! sid) -> P st ->
    P ((let* h := makeWASocket env sid client auth version in
        let* t := gets now in
        modify (set_SESSIONS <[sid := mkConn h None t cs]>) ;;; ret h) st).1.
Proof.
  intros Hok st Hrow H. unfold makeWASocket, proto, bind, gets, modify, ret.
  destruct (rejects env (calls st) (CMakeSocket sid auth version)); cbn [fst snd].
  - apply (stable_call (ok:=ok)), H.
  - apply stable_register.
    + exact Hok.
    + exists (mkSock sid client false). split; [|reflexivity].
      cbn. apply list_lookup_middle. reflexivity.
    + exact Hrow.
    + apply (stable_socket (ok:=ok)), (stable_call (ok:=ok)), H.
Qed.

Lemma keeps_app_start env sid client :
  ok sid -> keeps P (App.startBaileysSession env sid client).
Proof.
  intros Hok st H. unfold App.startBaileysSession, bind at 1, gets at 1.
  destruct (SESSIONS st !! sid); [exact H|].
  unfold bind at 1, sessionStore_upsert at 1, modify at 1.
  unfold bind at 1, App.useMySQLAuthState, gets at 1.
  unfold bind at 1.
  pose proof (keeps_fetch env [4; 0; 0]%nat _
                (stable_upsert sid (mkSession None None loading) st Hok H)) as Hf.
  destruct (fetchLatestBaileysVersion env [4; 0; 0]%nat
              (set_sessions <[sid:=mkSession None None loading]> st)) as [st1 [v|e]] eqn:E;
    [|exact Hf].
  apply keeps_register; [exact Hok| |exact Hf].
  assert (sessions st1 = sessions (set_sessions <[sid:=mkSession None None loading]> st)) as ->.
  { revert E. unfold fetchLatestBaileysVersion, try_catch, bind, proto, ret.
    destruct (rejects env _ CFetchVersion); intros [= <- _]; reflexivity. }
  cbn. rewrite lookup_insert_eq. eauto.
Qed.

Lemma keeps_server_start env sid client :
  ok sid -> keeps P (Server.startBaileysSession env sid client).
Proof.
  intros Hok st H. unfold Server.startBaileysSession, bind at 1, gets at 1.
  destruct (SESSIONS st !! sid); [exact H|].
  unfold bind at 1, sessionStore_upsert at 1, modify at 1.
  unfold bind at 1, Server.useMultiFileAuthState, gets at 1.
  unfold bind at 1.
  pose proof (keeps_fetch env [2; 2323; 9]%nat _
                (stable_upsert sid (mkSession None None loading) st Hok H)) as Hf.
  destruct (fetchLatestBaileysVersion env [2; 2323; 9]%nat
              (set_sessions <[sid:=mkSession None None loading]> st)) as [st1 [v|e]] eqn:E;
    [|exact Hf].
  apply keeps_register; [exact Hok| |exact Hf].
  assert (sessions st1 = sessions (set_sessions <[sid:=mkSession None None loading]> st)) as ->.
  { revert E. unfold fetchLatestBaileysVersion, try_catch, bind, proto, ret.
    destruct (rejects env _ CFetchVersion); intros [= <- _]; reflexivity. }
  cbn. rewrite lookup_insert_eq. eauto.
Qed.

End Keeps.

Ltac keeps_prim :=
  first [ apply keeps_ret | apply keeps_throw | apply keeps_lift | apply keeps_gets
        | eapply keeps_socket_emit | eapply keeps_io_emit | eapply keeps_proto
        | eapply keeps_upsert | eapply keeps_updateStatus | eapply keeps_setPhone
        | eapply keeps_insert | eapply keeps_setTimeout
        | eapply keeps_timer_gone | eapply keeps_creds | eapply keeps_now
        | eapply keeps_close
        | eapply keeps_set_lastQr | eapply keeps_set_contacts | eapply keeps_delete_entry
        | eapply keeps_fetch | eapply keeps_app_start | eapply keeps_server_start ].

Ltac keeps_go :=
  repeat first
    [ match goal with |- Stable _ _ => eassumption end
    | match goal with H : ?ok ?sid |- ?ok ?sid => exact H end
    | keeps_prim
    | apply keeps_bind; [|intros ?]
    | apply keeps_try_catch; [|intros ?]
    | apply keeps_ignore_errors
    | apply keeps_when
    | apply keeps_served
    | match goal with |- keeps _ (match ?x with _ => _ end) => destruct x end ].

Section Handlers.

Context (ok : string -> Prop) (P : State -> Prop) `{!Stable ok P} (env : Env).

Lemma keeps_app_broadcast_loop client sid s message total numbers :
  forall i, keeps P (App.broadcast_loop env client sid s message total i numbers).
Proof.
  induction numbers as [|n ns IH]; intros i; cbn [App.broadcast_loop]; [apply keeps_ret|].
  keeps_go. apply IH.
Qed.

Lemma keeps_server_broadcast_loop client sid s message total numbers :
  forall i success,
    keeps P (Server.broadcast_loop env client sid s message total i success numbers).
Proof.
  induction numbers as [|n ns IH]; intros i success; cbn [Server.broadcast_loop];
    [apply keeps_ret|].
  keeps_go. apply IH.
Qed.

Lemma keeps_app_start_session c sid :
  ok (or_default sid "main") -> keeps P (App.on_start_session env c sid).
Proof. intros Hok. unfold App.on_start_session, sessionStore_list. cbv zeta. keeps_go. Qed.

Lemma keeps_server_start_session c sid :
  ok (or_default sid "main") -> keeps P (Server.on_start_session env c sid).
Proof. intros Hok. unfold Server.on_start_session, sessionStore_list. cbv zeta. keeps_go. Qed.

Lemma keeps_app_request_qr c sid :
  ok (param_default sid "main") -> keeps P (App.on_request_qr env c sid).
Proof. intros Hok. unfold App.on_request_qr. cbv zeta. keeps_go. Qed.

Lemma keeps_server_request_qr c sid :
  ok (or_default sid "main") -> keeps P (Server.on_request_qr env c sid).
Proof. intros Hok. unfold Server.on_request_qr. cbv zeta. keeps_go. Qed.

Lemma keeps_app_send c p : keeps P (App.on_send_message env c p).
Proof. unfold App.on_send_message. cbv zeta. keeps_go. Qed.

Lemma keeps_server_send c p : keeps P (Server.on_send_message env c p).
Proof. unfold Server.on_send_message. cbv zeta. keeps_go. Qed.

Lemma keeps_app_broadcast c p : keeps P (App.on_broadcast env c p).
Proof. unfold App.on_broadcast. cbv zeta. keeps_go. apply keeps_app_broadcast_loop. Qed.

Lemma keeps_server_broadcast c p : keeps P (Server.on_broadcast env c p).
Proof.
  unfold Server.on_broadcast. cbv zeta. keeps_go. apply keeps_server_broadcast_loop.
Qed.

Lemma keeps_app_get_history c sid limit : keeps P (App.on_get_history c sid limit).
Proof. unfold App.on_get_history, App.messageStore_history. keeps_go. Qed.

Lemma keeps_app_logout c sid :
  ok (param_default sid "main") -> keeps P (App.on_logout_session env c sid).
Proof.
  intros Hok. unfold App.on_logout_session, App.clearSession. cbv zeta. keeps_go.
Qed.

Lemma keeps_server_logout c sid :
  ok (or_default sid "main") -> keeps P (Server.on_logout env c sid).
Proof. intros Hok. unfold Server.on_logout. cbv zeta. keeps_go. Qed.

Lemma keeps_app_messages sid h batch : keeps P (App.on_messages_upsert env sid h batch).
Proof.
  unfold App.on_messages_upsert. induction (default [] batch) as [|m ms IH];
    cbn [App.on_messages_loop]; [apply keeps_ret|].
  apply keeps_bind; [|intros _; exact IH].
  unfold App.on_message. keeps_go.
Qed.

Lemma keeps_server_messages sid h batch :
  keeps P (Server.on_messages_upsert env sid h batch).
Proof. unfold Server.on_messages_upsert. keeps_go. Qed.

Lemma keeps_app_update sid client h u :
  ok sid -> keeps P (App.on_connection_update env sid client h u).
Proof. intros Hok. unfold App.on_connection_update. keeps_go. Qed.

Lemma keeps_server_update sid client h u :
  ok sid -> keeps P (Server.on_connection_update env sid client h u).
Proof. intros Hok. unfold Server.on_connection_update. keeps_go. Qed.

Lemma keeps_deliver_update listener h u :
  (forall sid client, keeps P (listener sid client h u)) ->
  keeps P (deliver_update listener h u).
Proof.
  intros Hl. unfold deliver_update. apply keeps_bind; [apply keeps_gets|].
  intros socks. destruct (socks !! h); [|apply keeps_ret].
  apply keeps_bind; [|intros _; apply Hl].
  keeps_go.
Qed.

Lemma keeps_app_timer n : (forall sid, ok sid) -> keeps P (App.fire_timer env n).
Proof.
  intros Hok. unfold App.fire_timer. apply keeps_bind; [apply keeps_gets|].
  intros ts. destruct (ts !! n) as [t|]; [|apply keeps_ret].
  pose proof (Hok (tm_sid t)). keeps_go.
Qed.

Lemma keeps_server_timer n : (forall sid, ok sid) -> keeps P (Server.fire_timer env n).
Proof.
  intros Hok. unfold Server.fire_timer. apply keeps_bind; [apply keeps_gets|].
  intros ts. destruct (ts !! n) as [t|]; [|apply keeps_ret].
  pose proof (Hok (tm_sid t)). keeps_go.
Qed.

Lemma keeps_app_rest r req : keeps P (app_step env (Http r req)).
Proof.
  destruct r; cbn [app_step].
  - unfold app_api_sessions, sessionStore_list. keeps_go.
  - unfold App.api_messages, App.messageStore_history. keeps_go.
  - apply keeps_ret.
Qed.

Lemma keeps_server_rest r req : keeps P (server_step env (Http r req)).
Proof.
  destruct r; cbn [server_step].
  - unfold server_api_sessions, sessionStore_list. keeps_go.
  - unfold Server.api_messages, Server.messageStore_list. keeps_go.
  - unfold Server.api_send. cbv zeta. keeps_go.
Qed.

Lemma keeps_list_sessions c :
  keeps P (app_on_list_sessions c) /\ keeps P (server_on_list_sessions c) /\
  keeps P (server_on_refresh_status c).
Proof.
  unfold app_on_list_sessions, server_on_list_sessions, server_on_refresh_status,
    sessionStore_list, sessionStore_rows.
  repeat split; keeps_go. apply keeps_for_each. intros. keeps_go.
Qed.

(** Every input of app.js keeps a stable property. *)
Lemma keeps_app_step i : (forall sid, ok sid) -> keeps P (app_step env i).
Proof.
  intros Hok.
  destruct i as [c [sid|sid|p|p|sid limit|sid|sid| |]|h [u|batch|blob]|n|r req|t];
    cbn [app_step].
  - apply keeps_app_start_session, Hok.
  - apply keeps_app_request_qr, Hok.
  - apply keeps_app_send.
  - apply keeps_app_broadcast.
  - apply keeps_app_get_history.
  - apply keeps_app_logout, Hok.
  - apply keeps_ret.
  - apply keeps_list_sessions.
  - apply keeps_ret.
  - apply keeps_deliver_update. intros. apply keeps_app_update, Hok.
  - apply keeps_deliver. intros. apply keeps_app_messages.
  - apply keeps_deliver. intros. unfold App.saveCreds. keeps_go.
  - apply keeps_app_timer, Hok.
  - apply keeps_app_rest.
  - keeps_go.
Qed.

(** Every input of server.js keeps a stable property. *)
Lemma keeps_server_step i : (forall sid, ok sid) -> keeps P (server_step env i).
Proof.
  intros Hok.
  destruct i as [c [sid|sid|p|p|sid limit|sid|sid| |]|h [u|batch|blob]|n|r req|t];
    cbn [server_step].
  - apply keeps_server_start_session, Hok.
  - apply keeps_server_request_qr, Hok.
  - apply keeps_server_send.
  - apply keeps_server_broadcast.
  - apply keeps_ret.
  - apply keeps_ret.
  - apply keeps_server_logout, Hok.
  - apply keeps_list_sessions.
  - apply keeps_list_sessions.
  - apply keeps_deliver_update. intros. apply keeps_server_update, Hok.
  - apply keeps_deliver. intros. apply keeps_server_messages.
  - apply keeps_deliver. intros. unfold Server.saveCreds. keeps_go.
  - apply keeps_server_timer, Hok.
  - apply keeps_server_rest.
  - keeps_go.
Qed.

End Handlers.

Lemma app_step_keeps P `{!Invariant P} env i : keeps P (app_step env i).
Proof. apply (keeps_app_step (fun _ => True)); [exact _|auto]. Qed.

Lemma server_step_keeps P `{!Invariant P} env i : keeps P (server_step env i).
Proof. apply (keeps_server_step (fun _ => True)); [exact _|auto]. Qed.

(** ** Invariants of the reachable states *)

#[global] Instance registry_ok_stable : Invariant registry_ok.
Proof.
  split; try (intros; assumption).
  - intros sid st _ H sid' c Hc. cbn in Hc.
    apply lookup_delete_Some in Hc as [_ Hc]. exact (H _ _ Hc).
  - intros sid c c' st _ Hc Hsock H sid' c0 Hc0. cbn in Hc0 |- *.
    apply lookup_insert_Some in Hc0 as [[<- <-]|[_ Hc0]].
    + rewrite Hsock. exact (H _ _ Hc).
    + exact (H _ _ Hc0).
  - intros sid client st H sid' c Hc. cbn in Hc |- *.
    destruct (H _ _ Hc) as (s & Hs & Hsid). exists s. split; [|exact Hsid].
    apply lookup_app_l_Some, Hs.
  - intros sid c st _ Hsock _ H sid' c0 Hc0. cbn in Hc0 |- *.
    apply lookup_insert_Some in Hc0 as [[<- <-]|[_ Hc0]]; [exact Hsock|exact (H _ _ Hc0)].
  - intros h st H sid c Hc. cbn in Hc |- *.
    destruct (H _ _ Hc) as (s & Hs & Hsid).
    destruct (decide (h = sock c)) as [->|Hne].
    + eexists. rewrite list_lookup_alter_eq, Hs. split; [reflexivity|exact Hsid].
    + exists s. rewrite list_lookup_alter_ne by exact Hne. auto.
Qed.

#[global] Instance recorded_stable : Invariant recorded.
Proof.
  split; try (intros; assumption).
  - intros sid row st _ H sid' Hs. cbn. apply lookup_insert_is_Some'. right. exact (H _ Hs).
  - intros f sid st _ H sid' Hs. cbn. apply lookup_alter_is_Some. exact (H _ Hs).
  - intros sid st _ H sid' Hs. cbn in Hs. apply H.
    destruct Hs as [c Hc]. apply lookup_delete_Some in Hc as [_ Hc]. eauto.
  - intros sid c c' st _ Hc _ H sid' Hs. apply H. cbn in Hs.
    apply lookup_insert_is_Some in Hs as [<-|[_ Hs]]; [eauto|exact Hs].
  - intros sid c st _ _ Hrow H sid' Hs. cbn in Hs |- *.
    apply lookup_insert_is_Some in Hs as [<-|[_ Hs]]; [exact Hrow|exact (H _ Hs)].
Qed.

Lemma StronglySorted_snoc_below (rows : list MessageRow) r n :
  id r = n ->
  StronglySorted older_id rows -> Forall (fun x => (id x < n)%N) rows ->
  StronglySorted older_id (rows ++ [r]).
Proof.
  intros Hid Hs Hb. apply StronglySorted_app_2.
  - intros x1 x2 H1 H2. apply list_elem_of_singleton in H2 as ->.
    unfold older_id. rewrite Hid. exact (proj1 (Forall_forall _ _) Hb _ H1).
  - exact Hs.
  - repeat constructor.
Qed.

#[global] Instance table_ok_stable : Invariant table_ok.
Proof.
  split; try (intros; assumption).
  intros sid d from to txt media st [Hs Hb]. split; cbn.
  - apply (StronglySorted_snoc_below _ _ (next_id st)); [reflexivity|exact Hs|exact Hb].
  - apply Forall_app. split.
    + eapply Forall_impl; [exact Hb|]. cbn. intros. lia.
    + repeat constructor. cbn. lia.
Qed.

#[global] Instance timers_ok_stable : Invariant timers_ok.
Proof.
  split; try (intros; assumption).
  - intros t st Ht H. unfold timers_ok. cbn. apply Forall_app. split; [exact H|].
    repeat constructor. exact Ht.
  - intros n st H. unfold timers_ok. cbn. apply Forall_delete, H.
Qed.

Lemma reachable_keeps (P : State -> Prop) step :
  (forall i, keeps P (step i)) -> P initial ->
  forall st, reachable step st -> P st.
Proof. intros Hk H0 st. induction 1 as [|st i _ IH]; [exact H0|exact (Hk i st IH)]. Qed.

Lemma reachable_run step inputs :
  forall st, reachable step st -> reachable step (run step inputs st).
Proof.
  induction inputs as [|i r IH]; intros st H; [exact H|].
  cbn. apply IH. constructor. exact H.
Qed.


Lemma sockets_kept_same st st' : sockets st' = sockets st -> sockets_kept st st'.
Proof. intros E h s Hs. exists s. rewrite E. auto. Qed.

Lemma sockets_kept_trans st1 st2 st3 :
  sockets_kept st1 st2 -> sockets_kept st2 st3 -> sockets_kept st1 st3.
Proof.
  intros H12 H23 h s Hs. destruct (H12 h s Hs) as (s2 & Hs2 & Hsid2 & Hc2 & Hcl2).
  destruct (H23 h s2 Hs2) as (s3 & Hs3 & Hsid3 & Hc3 & Hcl3).
  exists s3. repeat split; [exact Hs3|congruence|congruence|auto].
Qed.


Lemma grows_trans st1 st2 st3 : grows st1 st2 -> grows st2 st3 -> grows st1 st3.
Proof.
  intros (Hm & He & Hc & Hd & Hn & Hs) (Hm' & He' & Hc' & Hd' & Hn' & Hs').
  repeat split;
    first [ lia | eapply sockets_kept_trans; eassumption | etrans; eassumption ].
Qed.

(** A change of the state that only adds. *)
Ltac grows_by st0 H :=
  apply (grows_trans st0 _ _ H);
  repeat split; cbn; try reflexivity; try (apply sockets_kept_same; reflexivity).

#[global] Instance grows_stable st0 : Invariant (grows st0).
Proof.
  split.
  - intros e st H. grows_by st0 H. apply prefix_app_r. reflexivity.
  - intros c st H. grows_by st0 H. apply prefix_app_r. reflexivity.
  - intros t st H. grows_by st0 H.
  - intros f st H. grows_by st0 H.
  - intros t st _ H. grows_by st0 H.
  - intros n st H. grows_by st0 H.
  - intros sid d from to txt media st H. grows_by st0 H.
    + apply prefix_app_r. reflexivity.
    + lia.
  - intros sid row st _ H. grows_by st0 H. apply dom_insert_subseteq.
  - intros f sid st _ H. grows_by st0 H. rewrite dom_alter_L. reflexivity.
  - intros sid st _ H. grows_by st0 H.
  - intros sid c c' st _ _ _ H. grows_by st0 H.
  - intros sid client st H. grows_by st0 H.
    intros h s Hs. exists s. split; [apply lookup_app_l_Some, Hs|auto].
  - intros sid c st _ _ _ H. grows_by st0 H.
  - intros h st H. grows_by st0 H.
    intros h' s Hs. unfold close_socket, set_sockets. cbn.
    destruct (decide (h = h')) as [->|Hne].
    + eexists. rewrite list_lookup_alter_eq, Hs. cbn. auto.
    + exists s. rewrite list_lookup_alter_ne by exact Hne. auto.
Qed.










(** ** Addresses *)

(** [formatJid] fails only for an absent or empty argument, with the
    message ['missing number/jid']; every address it returns ends in
    [@s.whatsapp.net] or [@g.us] and has no white space around it. *)
Theorem formatJid_returns_canonical x :
  match formatJid x with
  | Return r => canonical r = true /\ trim r = r /\ r <> ""
  | Throw e => e = "missing number/jid" /\ (x = None \/ x = Some "")
  end.
Proof.
  destruct x as [[|c s]|]; cbn [formatJid]; auto.
  set (s0 := String c s). unfold canonical.
  destruct (endsWith (trim s0) user_suffix || endsWith (trim s0) group_suffix) eqn:E.
  - split; [exact E|]. split; [apply trim_idem|exact (endsWith_suffix_nonempty _ E)].
  - split; [|split].
    + rewrite (endsWith_app _ user_suffix). reflexivity.
    + apply trim_phone_jid.
    + eapply endsWith_nonempty; [|apply (endsWith_app _ user_suffix)]. discriminate.
Qed.

(** ** REST access *)




(** ** History of a well-formed table *)

Section Newest.

#[local] Instance newer_id_transitive : Transitive newer_id.
Proof. unfold newer_id. intros x y z. lia. Qed.

#[local] Instance newer_id_is_total : Total newer_id.
Proof. unfold newer_id. intros x y. lia. Qed.

Lemma sorted_filter (Q : MessageRow -> Prop) `{!forall r, Decision (Q r)} rows :
  StronglySorted older_id rows -> StronglySorted older_id (filter Q rows).
Proof.
  induction 1 as [|r rows _ IH Hall]; [constructor|].
  rewrite filter_cons. destruct (decide (Q r)); [|exact IH].
  constructor; [exact IH|].
  apply Forall_forall. intros x Hx. apply list_elem_of_filter in Hx as [_ Hx].
  exact (proj1 (Forall_forall _ _) Hall x Hx).
Qed.

Lemma sorted_rev rows :
  StronglySorted older_id rows -> StronglySorted newer_id (rev rows).
Proof.
  induction 1 as [|r rows _ IH Hall]; [constructor|].
  cbn. apply StronglySorted_app_2; [|exact IH|repeat constructor].
  intros x1 x2 H1 H2. apply list_elem_of_singleton in H2 as ->.
  apply list_elem_of_In, in_rev, list_elem_of_In in H1.
  pose proof (proj1 (Forall_forall _ _) Hall x1 H1) as Hlt.
  unfold older_id, newer_id in *. lia.
Qed.

Lemma sorted_same_id rows x y :
  StronglySorted older_id rows -> x ∈ rows -> y ∈ rows -> id x = id y -> x = y.
Proof.
  induction 1 as [|r rows _ IH Hall]; intros Hx Hy Hid; [inversion Hx|].
  pose proof (proj1 (Forall_forall _ _) Hall) as Hlt. unfold older_id in Hlt.
  apply elem_of_cons in Hx as [->|Hx]; apply elem_of_cons in Hy as [->|Hy].
  - reflexivity.
  - specialize (Hlt _ Hy). lia.
  - specialize (Hlt _ Hx). lia.
  - exact (IH Hx Hy Hid).
Qed.

(** On a table whose ids grow along it, [ORDER BY id DESC] is the
    reverse of the order of insertion. *)
Lemma newest_first_is_reverse sid rows :
  StronglySorted older_id rows ->
  order_by_id_desc (of_session sid rows) = rev (of_session sid rows).
Proof.
  intros Hs. unfold order_by_id_desc, of_session.
  set (mine := filter (fun r => session_id r = Some sid) rows).
  assert (Hmine : StronglySorted older_id mine) by (apply sorted_filter; exact Hs).
  apply (StronglySorted_unique_strong newer_id).
  - intros x1 x2 H1 H2 H12 H21. apply (sorted_same_id mine); [exact Hmine| | |].
    + rewrite merge_sort_Permutation in H1. exact H1.
    + apply list_elem_of_In, in_rev, list_elem_of_In. exact H2.
    + unfold newer_id in *. lia.
  - apply StronglySorted_merge_sort; apply _.
  - apply sorted_rev, Hmine.
  - rewrite merge_sort_Permutation. apply Permutation_rev.
Qed.

End Newest.

Lemma table_ok_reachable env st :
  reachable (app_step env) st \/ reachable (server_step env) st -> table_ok st.
Proof.
  intros [H|H]; (eapply reachable_keeps; [|..|exact H]);
    first [ intros i; apply app_step_keeps; exact _
          | intros i; apply server_step_keeps; exact _
          | split; constructor ].
Qed.

(** In a state app.js can reach, [get-history] sends the caller the
    last [limit] rows of the session (200 when no limit is given), in
    the order in which they were inserted, and changes nothing else. *)
Theorem get_history_is_chronological env st client sessionId limit :
  reachable (app_step env) st ->
  (0 <= default 200%Z limit)%Z ->
  App.on_get_history client sessionId limit st =
    (add_emit
       (mkEmit (ToSocket client) "message-history"
          (JArr (message_json <$>
                   last_rows (Z.to_nat (default 200%Z limit))
                     (of_session (param_default sessionId "main") (messages st)))))
       st,
     Return tt).
Proof.
  intros Hr Hl. destruct (table_ok_reachable env st (or_introl Hr)) as [Hs _].
  unfold App.on_get_history, App.messageStore_history, sql_limit. run_M.
  rewrite (proj2 (Z.leb_le _ _) Hl). cbn.
  rewrite (newest_first_is_reverse _ _ Hs).
  unfold last_rows, add_emit. do 5 f_equal.
  rewrite firstn_rev, rev_involutive. reflexivity.
Qed.

Lemma get_history_is_chronological_witness :
  new_events (run (app_step second_fails) a_day initial)
    (exec (App.on_get_history 1 (Some "main") (Some 2%Z))
       (run (app_step second_fails) a_day initial)) =
  [mkEmit (ToSocket 1) "message-history"
     (JArr (message_json <$>
              last_rows 2 (of_session "main"
                             (messages (run (app_step second_fails) a_day initial)))))].
Proof.
  unfold exec.
  rewrite (get_history_is_chronological second_fails _ 1 (Some "main") (Some 2%Z)).
  - unfold new_events. cbn [fst add_emit emitted]. rewrite drop_app_length. reflexivity.
  - apply reachable_run. constructor.
  - cbn. lia.
Defined.

(** A text that app.js has sent is the newest entry of the history of
    its session: after an accepted [send-message] on a reachable state,
    [messageStore.history] with a positive limit starts with the row of
    that message, addressed to the canonical form of [to]. *)
Theorem sent_message_heads_history env st client p s jid limit :
  reachable (app_step env) st ->
  let sid := param_default (p_sessionId p) "main" in
  SESSIONS st !! sid = Some s ->
  formatJid (p_to p) = Return jid ->
  rejects env (calls st) (CSend (sock s) jid (p_message p)) = None ->
  (0 < limit)%Z ->
  let st' := exec (App.on_send_message env client p) st in
  exists rest,
    App.messageStore_history sid (Some limit) st' =
      (st', Return (mkMessage (next_id st) (Some sid) dir_out (sock_user env (sock s))
                      (Some jid) (p_message p) None (now st) :: rest)).
Proof.
  intros Hr sid Hs Hj Hok Hl st'.
  assert (Hst' : reachable (app_step env) st').
  { exact (reach_step _ st (FromClient client (send_message p)) Hr). }
  destruct (table_ok_reachable env st' (or_introl Hst')) as [Hsorted _].
  assert (Hm : messages st' = messages st ++
            [mkMessage (next_id st) (Some sid) dir_out (sock_user env (sock s))
               (Some jid) (p_message p) None (now st)]).
  { subst st'. unfold App.on_send_message, messageStore_insert. fold sid. run_M.
    rewrite Hs. cbn. rewrite Hj. cbn. rewrite Hok. reflexivity. }
  unfold App.messageStore_history, sql_limit. run_M.
  rewrite (proj2 (Z.leb_le 0 limit)) by lia.
  rewrite (newest_first_is_reverse _ _ Hsorted), Hm.
  unfold of_session. rewrite filter_app, filter_cons, decide_True by reflexivity.
  rewrite filter_nil, rev_app_distr. cbn [rev app].
  destruct (Z.to_nat limit) as [|n] eqn:En; [lia|]. cbn [take firstn].
  eexists. reflexivity.
Qed.

Lemma sent_message_heads_history_witness :
  exists rest,
    (App.messageStore_history "main" (Some 1%Z)
       (exec (App.on_send_message quiet_env 1 (mkSend None (Some "0812-3") (Some "hi")))
          app_started)).2 =
    Return (mkMessage 1 (Some "main") dir_out None (Some "08123@s.whatsapp.net")
              (Some "hi") None 0 :: rest).
Proof.
  destruct (sent_message_heads_history quiet_env app_started 1
              (mkSend None (Some "0812-3") (Some "hi")) (mkConn 0 None 0 (JObj []))
              "08123@s.whatsapp.net" 1) as [rest E];
    [|reflexivity|reflexivity|reflexivity|lia|].
  - apply reachable_run. constructor.
  - exists rest. exact (f_equal snd E).
Defined.

(** ** Sessions do not disturb one another *)

Lemma others_untouched_refl sid st : others_untouched sid st st.
Proof. intros sid' _. auto. Qed.

#[global] Instance others_untouched_stable sid st0 :
  Stable (eq sid) (others_untouched sid st0).
Proof.
  split; try (intros; assumption).
  - intros s row st <- H sid' Hne. destruct (H sid' Hne) as [H1 H2].
    split; [exact H1|]. cbn. rewrite lookup_insert_ne by congruence. exact H2.
  - intros f s st <- H sid' Hne. destruct (H sid' Hne) as [H1 H2].
    split; [exact H1|]. cbn. rewrite lookup_alter_ne by congruence. exact H2.
  - intros s st <- H sid' Hne. destruct (H sid' Hne) as [H1 H2].
    split; [|exact H2]. cbn. rewrite lookup_delete_ne by congruence. exact H1.
  - intros s c c' st <- _ _ H sid' Hne. destruct (H sid' Hne) as [H1 H2].
    split; [|exact H2]. cbn. rewrite lookup_insert_ne by congruence. exact H1.
  - intros s c st <- _ _ H sid' Hne. destruct (H sid' Hne) as [H1 H2].
    split; [|exact H2]. cbn. rewrite lookup_insert_ne by congruence. exact H1.
Qed.

(** An input of app.js that is about one session (the session a command
    names, or the one the socket or the timer of the input belongs to)
    leaves the registry entry and the [sessions] row of every other
    session as they are; an input about no session leaves them all. *)
Theorem app_sessions_are_isolated env st i sid :
  (forall s, input_session app_command_session st i = Some s -> s = sid) ->
  others_untouched sid st (exec (app_step env i) st).
Proof.
  intros Hi. pose (P := others_untouched sid st).
  assert (HP : P st) by apply others_untouched_refl.
  assert (Hst : Stable (eq sid) P) by apply _.
  change (P (app_step env i st).1).
  destruct i as [c [s|s|p|p|s limit|s|s| |]|h [u|batch|blob]|n|r req|t];
    cbn [app_step input_session app_command_session] in *.
  - exact (keeps_app_start_session (eq sid) P env c s (eq_sym (Hi _ eq_refl)) st HP).
  - exact (keeps_app_request_qr (eq sid) P env c s (eq_sym (Hi _ eq_refl)) st HP).
  - exact (keeps_app_send (eq sid) P env c p st HP).
  - exact (keeps_app_broadcast (eq sid) P env c p st HP).
  - exact (keeps_app_get_history (eq sid) P c s limit st HP).
  - exact (keeps_app_logout (eq sid) P env c s (eq_sym (Hi _ eq_refl)) st HP).
  - exact HP.
  - exact (proj1 (keeps_list_sessions (eq sid) P c) st HP).
  - exact HP.
  - unfold deliver_update, bind at 1, gets.
    destruct (sockets st !! h) as [s|]; [|exact HP].
    pose proof (eq_sym (Hi _ eq_refl)) as Hs.
    refine (keeps_bind P _ _ _ _ st HP).
    + apply keeps_when. exact (keeps_close P (eq sid) h).
    + intros _. exact (keeps_app_update (eq sid) P env _ _ h u Hs).
  - unfold deliver, bind, gets. destruct (sockets st !! h) as [s|]; [|exact HP].
    exact (keeps_app_messages (eq sid) P env _ h batch st HP).
  - unfold deliver, bind, gets. destruct (sockets st !! h) as [s|]; [|exact HP].
    exact (keeps_creds P (eq sid) _ st HP).
  - unfold App.fire_timer, bind at 1, gets.
    destruct (timers st !! n) as [t|]; [|exact HP].
    pose proof (eq_sym (Hi _ eq_refl)) as Hs.
    refine (keeps_bind P _ _ _ _ st HP).
    + exact (keeps_timer_gone P (eq sid) n).
    + intros _. apply keeps_try_catch; [|intros ?; apply keeps_ret].
      apply keeps_bind; [|intros ?; apply keeps_ret].
      exact (keeps_app_start P (eq sid) env _ _ Hs).
  - exact (keeps_app_rest P env r req st HP).
  - exact (keeps_now P (eq sid) t st HP).
Qed.

(** The same for server.js, where [POST /api/send] is about the session
    of its body. *)
Theorem server_sessions_are_isolated env st i sid :
  (forall s, input_session server_command_session st i = Some s -> s = sid) ->
  others_untouched sid st (exec (server_step env i) st).
Proof.
  intros Hi. pose (P := others_untouched sid st).
  assert (HP : P st) by apply others_untouched_refl.
  assert (Hst : Stable (eq sid) P) by apply _.
  change (P (server_step env i st).1).
  destruct i as [c [s|s|p|p|s limit|s|s| |]|h [u|batch|blob]|n|r req|t];
    cbn [server_step input_session server_command_session] in *.
  - exact (keeps_server_start_session (eq sid) P env c s (eq_sym (Hi _ eq_refl)) st HP).
  - exact (keeps_server_request_qr (eq sid) P env c s (eq_sym (Hi _ eq_refl)) st HP).
  - exact (keeps_server_send (eq sid) P env c p st HP).
  - exact (keeps_server_broadcast (eq sid) P env c p st HP).
  - exact HP.
  - exact HP.
  - exact (keeps_server_logout (eq sid) P env c s (eq_sym (Hi _ eq_refl)) st HP).
  - exact (proj1 (proj2 (keeps_list_sessions (eq sid) P c)) st HP).
  - exact (proj2 (proj2 (keeps_list_sessions (eq sid) P c)) st HP).
  - unfold deliver_update, bind at 1, gets.
    destruct (sockets st !! h) as [s|]; [|exact HP].
    pose proof (eq_sym (Hi _ eq_refl)) as Hs.
    refine (keeps_bind P _ _ _ _ st HP).
    + apply keeps_when. exact (keeps_close P (eq sid) h).
    + intros _. exact (keeps_server_update (eq sid) P env _ _ h u Hs).
  - unfold deliver, bind, gets. destruct (sockets st !! h) as [s|]; [|exact HP].
    exact (keeps_server_messages (eq sid) P env _ h batch st HP).
  - unfold deliver, bind, gets. destruct (sockets st !! h) as [s|]; [|exact HP].
    exact (keeps_creds P (eq sid) _ st HP).
  - unfold Server.fire_timer, bind at 1, gets.
    destruct (timers st !! n) as [t|]; [|exact HP].
    pose proof (eq_sym (Hi _ eq_refl)) as Hs.
    refine (keeps_bind P _ _ _ _ st HP).
    + exact (keeps_timer_gone P (eq sid) n).
    + intros _. apply keeps_try_catch; [|intros ?; apply keeps_ret].
      apply keeps_bind; [|intros ?; apply keeps_ret].
      exact (keeps_server_start P (eq sid) env _ _ Hs).
  - exact (keeps_server_rest (eq sid) P env r req st HP).
  - exact (keeps_now P (eq sid) t st HP).
Qed.

Lemma app_sessions_are_isolated_witness :
  others_untouched "main" app_started
    (exec (app_step quiet_env (FromClient 1 (logout_session None))) app_started).
Proof.
  apply (app_sessions_are_isolated quiet_env app_started
           (FromClient 1 (logout_session None)) "main").
  intros s [= <-]. reflexivity.
Defined.

Lemma server_sessions_are_isolated_witness :
  others_untouched "main" server_started
    (exec (server_step quiet_env
             (FromProtocol 0 (connection_update (mkUpdate (Some conn_close) (Some 401%Z) None))))
       server_started).
Proof.
  apply (server_sessions_are_isolated quiet_env server_started
           (FromProtocol 0 (connection_update (mkUpdate (Some conn_close) (Some 401%Z) None)))
           "main").
  intros s [= <-]. reflexivity.
Defined.

(** ** The QR code *)



(** ** Starting again *)

Lemma app_start_fresh env sid client st :
  makes_sockets env -> SESSIONS st !! sid = None ->
  exists st',
    App.startBaileysSession env sid client st = (st', Return (List.length (sockets st))) /\
    SESSIONS st' =
      <[sid := mkConn (List.length (sockets st)) None (now st) (JObj [])]> (SESSIONS st) /\
    sessions st' = <[sid := mkSession None None loading]> (sessions st) /\
    sockets st' = sockets st ++ [mkSock sid client false] /\
    timers st' = timers st /\ messages st' = messages st /\ emitted st' = emitted st.
Proof.
  intros Hm Hs. unfold App.startBaileysSession, App.useMySQLAuthState,
    fetchLatestBaileysVersion, makeWASocket. run_M. rewrite Hs. cbn.
  destruct (rejects env (calls st) CFetchVersion); cbn; rewrite Hm; cbn;
    eexists; repeat split; reflexivity.
Qed.

Lemma server_start_fresh env sid client st :
  makes_sockets env -> SESSIONS st !! sid = None ->
  exists st',
    Server.startBaileysSession env sid client st = (st', Return (List.length (sockets st))) /\
    SESSIONS st' =
      <[sid := mkConn (List.length (sockets st)) None (now st) JUndef]> (SESSIONS st) /\
    sessions st' = <[sid := mkSession None None loading]> (sessions st) /\
    sockets st' = sockets st ++ [mkSock sid client false] /\
    timers st' = timers st /\ messages st' = messages st /\ emitted st' = emitted st.
Proof.
  intros Hm Hs. unfold Server.startBaileysSession, Server.useMultiFileAuthState,
    fetchLatestBaileysVersion, makeWASocket. run_M. rewrite Hs. cbn.
  destruct (rejects env (calls st) CFetchVersion); cbn; rewrite Hm; cbn;
    eexists; repeat split; reflexivity.
Qed.

(** A pending reconnect is not cancelled by a logout: when a timer
    fires for a session that has no registry entry and the protocol
    makes the socket, a new socket is made for the session and
    registered, and its row is set (back) to [loading].  app.js and
    server.js. *)
Theorem pending_timer_restarts_session env st n t :
  makes_sockets env ->
  timers st !! n = Some t ->
  SESSIONS st !! tm_sid t = None ->
  (let st' := exec (App.fire_timer env n) st in
   sock <$> SESSIONS st' !! tm_sid t = Some (List.length (sockets st)) /\
   sessions st' !! tm_sid t = Some (mkSession None None loading) /\
   sockets st' = sockets st ++ [mkSock (tm_sid t) (tm_client t) false] /\
   timers st' = delete n (timers st)) /\
  (let st' := exec (Server.fire_timer env n) st in
   sock <$> SESSIONS st' !! tm_sid t = Some (List.length (sockets st)) /\
   sessions st' !! tm_sid t = Some (mkSession None None loading) /\
   sockets st' = sockets st ++ [mkSock (tm_sid t) (tm_client t) false] /\
   timers st' = delete n (timers st)).
Proof.
  intros Hm Ht Hs. split; cbv zeta.
  - destruct (app_start_fresh env (tm_sid t) (tm_client t) (set_timers (delete n) st) Hm Hs)
      as (st' & E & HS & Hrow & Hsock & Htm & _).
    assert (exec (App.fire_timer env n) st = st') as ->.
    { unfold App.fire_timer, exec, bind at 1, gets. rewrite Ht.
      unfold bind at 1, modify at 1, try_catch, bind. rewrite E. reflexivity. }
    rewrite HS, Hrow, Hsock, Htm, !lookup_insert_eq. auto.
  - destruct (server_start_fresh env (tm_sid t) (tm_client t) (set_timers (delete n) st) Hm Hs)
      as (st' & E & HS & Hrow & Hsock & Htm & _).
    assert (exec (Server.fire_timer env n) st = st') as ->.
    { unfold Server.fire_timer, exec, bind at 1, gets. rewrite Ht.
      unfold bind at 1, modify at 1, try_catch, bind. rewrite E. reflexivity. }
    rewrite HS, Hrow, Hsock, Htm, !lookup_insert_eq. auto.
Qed.

Lemma pending_timer_restarts_session_witness :
  SESSIONS app_logged_out_with_timer !! "main" = None /\
  status <$> sessions app_logged_out_with_timer !! "main" = Some logged_out /\
  sock <$> SESSIONS (exec (App.fire_timer quiet_env 0) app_logged_out_with_timer) !! "main"
    = Some 1%nat /\
  sessions (exec (App.fire_timer quiet_env 0) app_logged_out_with_timer) !! "main"
    = Some (mkSession None None loading).
Proof.
  destruct (pending_timer_restarts_session quiet_env app_logged_out_with_timer 0
              (mkTimer 3000 "main" None)) as [(H1 & H2 & _) _];
    [intros ? ? ? ?; reflexivity|reflexivity|reflexivity|].
  split; [reflexivity|]. split; [reflexivity|]. split; [exact H1|exact H2].
Defined.

(** A [start-session] for a session that is in the registry makes no
    socket and no protocol call and leaves the registry alone, but it
    overwrites the row of the session: status [loading], phone number
    and user id NULL, whatever they were.  app.js and server.js. *)
Theorem start_session_resets_row env client sessionId c st :
  SESSIONS st !! or_default sessionId "main" = Some c ->
  let sid := or_default sessionId "main" in
  (let st' := exec (App.on_start_session env client sessionId) st in
   SESSIONS st' = SESSIONS st /\ sockets st' = sockets st /\ calls st' = calls st /\
   sessions st' = <[sid := mkSession None None loading]> (sessions st) /\
   mkEmit (ToSocket client) "session" (session_event sid loading) ∈ new_events st st') /\
  (let st' := exec (Server.on_start_session env client sessionId) st in
   SESSIONS st' = SESSIONS st /\ sockets st' = sockets st /\ calls st' = calls st /\
   sessions st' = <[sid := mkSession None None loading]> (sessions st) /\
   mkEmit (ToSocket client) "session" (session_event sid loading) ∈ new_events st st').
Proof.
  intros Hc sid. split; cbv zeta.
  - unfold App.on_start_session, App.startBaileysSession, sessionStore_list, new_events.
    fold sid. run_M. fold sid in Hc. rewrite Hc. cbn.
    repeat split. rewrite <- !app_assoc, drop_app_length. set_solver.
  - unfold Server.on_start_session, Server.startBaileysSession, sessionStore_list, new_events.
    fold sid. run_M. fold sid in Hc. rewrite Hc. cbn.
    repeat split. rewrite <- ?app_assoc, drop_app_length. set_solver.
Qed.

Lemma start_session_resets_row_witness :
  sessions (opened App.on_connection_update app_started) !! "main"
    = Some (mkSession None None connected) /\
  sessions (exec (App.on_start_session quiet_env 2 None)
              (opened App.on_connection_update app_started)) !! "main"
    = Some (mkSession None None loading).
Proof.
  split; [reflexivity|].
  destruct (start_session_resets_row quiet_env 2 None (mkConn 0 None 0 (JObj []))
              (opened App.on_connection_update app_started)) as [(_ & _ & _ & H & _) _];
    [reflexivity|].
  rewrite H. reflexivity.
Defined.

(** ** Opening *)

(** When a socket opens, the phone number taken for the session is the
    part of [sock.user.id] before the first colon, if there is one.
    app.js writes a whole row with it (status [connected], creating the
    row when there is none) and otherwise only sets the status;
    server.js only updates an existing row, its phone number and its
    status, and never creates one. *)
Theorem open_records_phone env sid client h st :
  sessions (exec (App.on_connection_update env sid client h open_update) st) !! sid =
    match phone_of env h with
    | Some phone => Some (mkSession None (Some phone) connected)
    | None => with_status connected <$> sessions st !! sid
    end /\
  sessions (exec (Server.on_connection_update env sid client h open_update) st) !! sid =
    (fun r => with_status connected (with_phone (phone_of env h) r)) <$> sessions st !! sid.
Proof.
  unfold phone_of. split.
  - unfold App.on_connection_update, set_contacts. run_M.
    destruct (truthy (before_colon <$> sock_user env h)) as [phone|]; cbn;
      destruct (store_contacts env h); cbn; try destruct (SESSIONS st !! sid); cbn;
      rewrite lookup_alter_eq, ?lookup_insert_eq; reflexivity.
  - unfold Server.on_connection_update, sessionStore_setPhone. run_M.
    destruct (truthy (before_colon <$> sock_user env h)) as [phone|]; cbn;
      rewrite !lookup_alter_eq; destruct (sessions st !! sid); reflexivity.
Qed.

(** ** Listing the sessions *)

Lemma for_each_emit {A} client ev (f : A -> jval) l :
  forall st,
    for_each (fun r => socket_emit client ev (f r)) l st =
      (mkState (SESSIONS st) (sessions st) (messages st) (next_id st) (creds st)
         (sockets st) (calls st) (timers st)
         (emitted st ++ ((fun r => mkEmit (ToSocket client) ev (f r)) <$> l)) (now st),
       Return tt).
Proof.
  induction l as [|x r IH]; intros st; cbn [for_each].
  - cbn. rewrite app_nil_r. destruct st; reflexivity.
  - unfold bind, socket_emit, modify. rewrite IH. cbn. rewrite <- app_assoc. reflexivity.
Qed.

(** [refresh-status] of server.js sends the caller one [session] event
    for every row of [sessions], with the status and the phone number of
    the row, and nothing else; the state is otherwise untouched. *)
Theorem refresh_status_reports_every_row client st :
  let st' := exec (server_on_refresh_status client) st in
  (forall sid row, sessions st !! sid = Some row ->
     mkEmit (ToSocket client) "session" (status_event (sid, row)) ∈ new_events st st') /\
  (forall e, e ∈ new_events st st' ->
     exists sid row, sessions st !! sid = Some row /\
       e = mkEmit (ToSocket client) "session" (status_event (sid, row))) /\
  List.length (new_events st st') = size (sessions st) /\
  sessions st' = sessions st /\ SESSIONS st' = SESSIONS st /\
  messages st' = messages st /\ calls st' = calls st.
Proof.
  cbv zeta. unfold server_on_refresh_status, sessionStore_rows, exec, try_catch, bind, gets.
  rewrite for_each_emit. cbn [fst]. unfold new_events. cbn [emitted].
  rewrite drop_app_length. repeat split.
  - intros sid row H. apply list_elem_of_fmap. exists (sid, row). split; [reflexivity|].
    apply elem_of_map_to_list. exact H.
  - intros e He. apply list_elem_of_fmap in He as ([sid row] & -> & Hin).
    exists sid, row. split; [|reflexivity]. apply elem_of_map_to_list. exact Hin.
  - rewrite length_fmap. apply length_map_to_list.
Qed.

(** ** What a broadcast writes *)

Lemma server_broadcast_loop_rows env client sid s message total numbers :
  Forall (fun n => n <> "") numbers ->
  forall i success st, exists os st',
    Server.broadcast_loop env client sid s message total i success numbers st
      = (st', Return (success + sent_count os)%nat) /\
    List.length os = List.length numbers /\
    emitted st' = emitted st ++ progress client sid total i numbers os /\
    calls st' = calls st ++ ((fun n => CSend (sock s) (jid_of n) message) <$> numbers) /\
    exists rows,
      messages st' = messages st ++ rows /\ List.length rows = sent_count os /\
      Forall (fun r => direction r = dir_out /\ session_id r = Some sid /\
                       text r = message /\
                       exists n, n ∈ numbers /\ to_who r = Some (jid_of n)) rows.
Proof.
  induction 1 as [|n ns Hn _ IH]; intros i success st.
  - exists [], st. cbn. rewrite Nat.add_0_r, !app_nil_r.
    repeat split. exists []. rewrite app_nil_r. auto.
  - cbn [Server.broadcast_loop]. unfold bind at 1, lift at 1.
    rewrite (formatJid_jid_of _ Hn). unfold messageStore_insert. run_M.
    destruct (rejects env (calls st) (CSend (sock s) (jid_of n) message)) as [e|]; cbn.
    + match goal with |- context [Server.broadcast_loop _ _ _ _ _ _ _ _ _ ?st1] =>
        destruct (IH (S i) success st1) as (os & st' & E & Hl & He & Hc & rows & Hm & Hr & Hall)
      end.
      exists (Some e :: os), st'. rewrite E, He, Hc.
      unfold progress_event, sent_count in *. cbn.
      rewrite Hl, <- !app_assoc. repeat split.
      exists rows. split; [exact Hm|]. split; [exact Hr|].
      eapply Forall_impl; [exact Hall|]. cbn. intros r (? & ? & ? & n' & ? & ?).
      repeat split; auto. exists n'. split; [right|]; auto.
    + match goal with |- context [Server.broadcast_loop _ _ _ _ _ _ _ _ _ ?st1] =>
        destruct (IH (S i) (S success) st1)
          as (os & st' & E & Hl & He & Hc & rows & Hm & Hr & Hall)
      end.
      exists (None :: os), st'. rewrite E, He, Hc.
      unfold progress_event, sent_count in *. cbn.
      rewrite Hl, <- !app_assoc, Nat.add_succ_r. repeat split.
      eexists (_ :: rows). cbn in Hm. rewrite Hm, <- app_assoc. cbn.
      split; [reflexivity|]. split; [rewrite Hr; reflexivity|].
      constructor.
      * cbn. repeat split. exists n. split; [left|reflexivity].
      * eapply Forall_impl; [exact Hall|]. cbn. intros r (? & ? & ? & n' & ? & ?).
        repeat split; auto. exists n'. split; [right|]; auto.
Qed.

(** A broadcast of server.js to non-empty recipients asks the protocol
    once per recipient, in the order of the list, and the [success] of
    its summary is exactly the number of rows it has added to
    [messages]: one outbound row of the session per accepted send, none
    for a refused one. *)
Theorem broadcast_success_counts_rows env client p numbers s st :
  b_numbers p = Some numbers ->
  Forall (fun n => n <> "") numbers ->
  SESSIONS st !! or_default (b_sessionId p) "main" = Some s ->
  let sid := or_default (b_sessionId p) "main" in
  let st' := exec (Server.on_broadcast env client p) st in
  exists os,
    List.length os = List.length numbers /\
    last (emitted st') =
      Some (complete_event client sid (List.length numbers) (sent_count os)) /\
    List.length (new_rows st st') = sent_count os /\
    Forall (fun r => direction r = dir_out /\ session_id r = Some sid) (new_rows st st') /\
    new_calls st st' = (fun n => CSend (sock s) (jid_of n) (b_message p)) <$> numbers.
Proof.
  intros Hn Hne Hs. cbv zeta.
  set (sid := or_default (b_sessionId p) "main") in *.
  destruct (server_broadcast_loop_rows env client sid s (b_message p) (List.length numbers)
              numbers Hne 0 0 st) as (os & st1 & E & Hl & He & Hc & rows & Hm & Hr & Hall).
  assert (Server.on_broadcast env client p st =
            (add_emit (complete_event client sid (List.length numbers) (sent_count os)) st1,
             Return tt)) as Hrun.
  { unfold Server.on_broadcast. fold sid. unfold try_catch, bind, gets.
    rewrite Hs, Hn, E. reflexivity. }
  exists os. unfold exec, new_rows, new_calls. rewrite Hrun. cbn [fst].
  cbn [messages calls emitted add_emit]. rewrite Hm, Hc, !drop_app_length, last_snoc.
  repeat split; auto.
  eapply Forall_impl; [exact Hall|]. cbn. tauto.
Qed.

Lemma broadcast_success_counts_rows_witness :
  exists os,
    last (emitted (exec (Server.on_broadcast second_fails 1 three_numbers) server_started)) =
      Some (complete_event 1 "main" 3 (sent_count os)) /\
    List.length (new_rows server_started
                   (exec (Server.on_broadcast second_fails 1 three_numbers) server_started))
      = sent_count os.
Proof.
  destruct (broadcast_success_counts_rows second_fails 1 three_numbers
              ["6281"; "6282"; "6283"] (mkConn 0 None 0 JUndef) server_started)
    as (os & _ & H1 & H2 & _).
  - reflexivity.
  - repeat constructor; discriminate.
  - reflexivity.
  - exists os. split; [exact H1|exact H2].
Defined.

(** ** The dashboard page against server.js *)

Section DashboardPage.

Lemma split_nonempty s : Dashboard.split s <> [].
Proof.
  induction s as [|c r IH]; cbn; [discriminate|].
  destruct (Dashboard.split r) as [|p ps]; [contradiction|].
  destruct (Dashboard.is_sep c); [destruct (Dashboard.starts_with_sep r)|]; discriminate.
Qed.







End DashboardPage.







(** ** Group, presence and profile commands *)

Section GroupCommands.

Lemma formatJid_canonical x r : formatJid x = Return r -> canonical r = true.
Proof.
  destruct x as [[|c s]|]; cbn [formatJid]; try discriminate.
  unfold canonical. set (s0 := String c s).
  destruct (endsWith (trim s0) user_suffix || endsWith (trim s0) group_suffix) eqn:E;
    intros [= <-]; [exact E|].
  rewrite (endsWith_app _ user_suffix). reflexivity.
Qed.

Lemma format_all_canonical l js :
  format_all l = Return js -> Forall (fun j => canonical j = true) js.
Proof.
  revert js. induction l as [|p l IH]; cbn [format_all]; intros js.
  - intros [= <-]. constructor.
  - destruct (formatJid (Some p)) as [j|] eqn:Ej; [|discriminate].
    destruct (format_all l) as [js'|]; [|discriminate].
    intros [= <-]. constructor; eauto using formatJid_canonical.
Qed.

Lemma format_all_empty l :
  "" ∈ l -> format_all l = Throw "missing number/jid".
Proof.
  induction l as [|p l IH]; [intros H; inversion H|].
  intros [<-|H]%elem_of_cons; [reflexivity|].
  cbn [format_all]. destruct p as [|c p]; [reflexivity|].
  rewrite formatJid_nonempty by discriminate.
  rewrite (IH H). destruct (_ || _); reflexivity.
Qed.

End GroupCommands.

Ltac run_W :=
  unfold after, Groups.on_command, Groups.on_create_group, Groups.on_group_add,
    Groups.on_group_promote, Groups.on_group_demote, Groups.on_send_presence,
    Groups.on_block, Groups.on_unblock, Groups.on_block_status, Groups.on_get_profile,
    Groups.on_mark_read, Groups.failed, Groups.emit;
  unfold wtry, wbind, wret, in_app, ask, add_asked, socket_emit;
  unfold gets, lift, modify; cbn.

(** None of the nine group, presence, block, profile and receipt
    commands of app.js does anything for a session that has no registry
    entry: the caller gets ['session not active'] and no protocol method
    is called. *)
Theorem group_commands_need_live_session out client c w :
  SESSIONS (proc w) !! param_default (Groups.session_field c) "main" = None ->
  Groups.on_command out client c w =
    (set_proc (add_emit (not_active client "error-message")) w, Return tt).
Proof.
  intros H. destruct c; cbn [Groups.session_field] in H; run_W; rewrite H; reflexivity.
Qed.

Lemma group_commands_need_live_session_witness :
  Groups.on_command quiet_outside 1 (Groups.block (Some "shop") (Some "6281"))
      (world_of app_started) =
    (set_proc (add_emit (not_active 1 "error-message")) (world_of app_started), Return tt).
Proof.
  apply (group_commands_need_live_session quiet_outside 1
           (Groups.block (Some "shop") (Some "6281")) (world_of app_started)).
  reflexivity.
Defined.



(** Every protocol call of these commands goes to the socket of the
    registry entry of the command's session, and every participant or
    recipient in it has passed [formatJid]: it ends in
    [@s.whatsapp.net] or [@g.us]. *)
Theorem group_calls_use_canonical_addresses out client c s w :
  SESSIONS (proc w) !! param_default (Groups.session_field c) "main" = Some s ->
  Forall (fun call => call_socket call = sock s /\
                      Forall (fun j => canonical j = true) (call_addresses call))
         (new_asked w (after (Groups.on_command out client c) w)).
Proof.
  intros H. unfold new_asked.
  destruct c; cbn [Groups.session_field] in H; run_W; rewrite H; cbn;
    match goal with
    | |- context [format_all ?l] =>
        destruct (format_all l) as [js|e] eqn:E;
        [apply format_all_canonical in E|]
    | |- context [formatJid ?x] =>
        destruct (formatJid x) as [j|e] eqn:E;
        [apply formatJid_canonical in E|]
    end; cbn; rewrite ?drop_all; try constructor;
    match goal with
    | |- context [refuses out ?a ?call] => destruct (refuses out a call) as [e|]
    end; cbn; rewrite drop_app_length; repeat constructor; auto.
Qed.

Lemma group_calls_use_canonical_addresses_witness :
  Forall (fun call => call_socket call = 0%nat /\
                      Forall (fun j => canonical j = true) (call_addresses call))
         (new_asked (world_of app_started)
            (after (Groups.on_command quiet_outside 1
                      (Groups.group_add None (Some "shop") (Some ["0812-1"; "62 813"])))
                   (world_of app_started))).
Proof.
  apply (group_calls_use_canonical_addresses quiet_outside 1
           (Groups.group_add None (Some "shop") (Some ["0812-1"; "62 813"]))
           (mkConn 0 None 0 (JObj [])) (world_of app_started)).
  reflexivity.
Defined.

(** A participant list is checked as a whole before the protocol is
    asked: if one participant of [create-group] or [group-add] is the
    empty string, no call is made and the caller gets
    ['missing number/jid']. *)
Theorem empty_participant_stops_group_call out client sid group participants s w :
  "" ∈ participants ->
  SESSIONS (proc w) !! param_default sid "main" = Some s ->
  let refused :=
    (set_proc (add_emit (mkEmit (ToSocket client) "error-message"
                           (JStr "missing number/jid"))) w, Return tt) in
  Groups.on_command out client (Groups.create_group sid group (Some participants)) w = refused /\
  Groups.on_command out client (Groups.group_add sid group (Some participants)) w = refused.
Proof.
  intros Hin Hs. cbv zeta. split; run_W; rewrite Hs; cbn;
    rewrite (format_all_empty _ Hin); reflexivity.
Qed.

Lemma empty_participant_stops_group_call_witness :
  asked (after (Groups.on_command quiet_outside 1
                  (Groups.group_add None (Some "shop") (Some ["6281"; ""; "6283"])))
               (world_of app_started)) = [].
Proof.
  destruct (empty_participant_stops_group_call quiet_outside 1 None (Some "shop")
              ["6281"; ""; "6283"] (mkConn 0 None 0 (JObj [])) (world_of app_started))
    as [_ H].
  - set_solver.
  - reflexivity.
  - unfold after. rewrite H. reflexivity.
Defined.

(** ** Uploads *)

(** [POST /api/send-media] of app.js with a valid key never leaves the
    uploaded file behind: whatever the answer (400, 404, 500 or 200),
    the upload directory afterwards is the one before without the path
    of the upload. *)
Theorem send_media_removes_upload env out u f w :
  requireApiKey env (m_req u) = true ->
  m_file u = Some f ->
  path f <> "" ->
  exists resp w',
    app_api_send_media env out u w = (w', Return resp) /\
    uploads w' = delete (path f) (uploads w).
Proof.
  intros Hk Hf Hp. unfold app_api_send_media. rewrite Hk, Hf. cbn [negb fmap option_fmap option_map].
  destruct (path f) as [|c p] eqn:Ep; [contradiction|]. cbn [truthy].
  set (P := String c p) in *.
  unfold upload_single, wbind at 1. rewrite Ep. fold P.
  set (w1 := set_uploads <[P := content f]> w).
  unfold finally.
  match goal with
  | |- context [wtry ?m ?h w1] =>
      assert (exists resp w2, wtry m h w1 = (w2, Return resp) /\ uploads w2 = uploads w1) as
        (resp & w2 & E & Hu)
  end.
  { unfold wtry, wbind, wret, in_app, gets, lift, readFileSync, ask, messageStore_insert, modify.
    destruct (truthy (r_to (m_req u))) as [to|] eqn:Eto; [|eauto].
    cbn -[formatJid]. destruct (SESSIONS (proc w) !! _) as [s|]; [|eauto].
    cbn -[formatJid]. rewrite lookup_insert_eq.
    destruct (formatJid (Some to)) as [jid|e]; cbn; [|eauto].
    match goal with
    | |- context [refuses out ?a ?call] => destruct (refuses out a call)
    end; cbn; eauto. }
  rewrite E. unfold wbind, existsSync, wtry, unlinkSync, wret.
  assert (uploads w2 !! P = Some (content f)) as Hl.
  { rewrite Hu. unfold w1. cbn. apply lookup_insert_eq. }
  rewrite bool_decide_eq_true_2 by (rewrite Hl; eauto). rewrite Hl.
  eexists _, _. split; [reflexivity|].
  cbn. rewrite Hu. unfold w1. cbn. apply delete_insert_eq.
Qed.

Lemma send_media_removes_upload_witness :
  exists resp w',
    app_api_send_media quiet_env deaf_outside
      (mkMultipart (keyed None (Some "6281")) None (Some a_photo)) (world_of app_started)
      = (w', Return resp) /\
    uploads w' = delete "uploads/3f9a" (uploads (world_of app_started)).
Proof.
  apply (send_media_removes_upload quiet_env deaf_outside
           (mkMultipart (keyed None (Some "6281")) None (Some a_photo)) a_photo
           (world_of app_started)).
  - reflexivity.
  - reflexivity.
  - discriminate.
Defined.

(** [POST /api/send-image] of server.js removes the uploaded file only
    when it answers 200: after a 400, 404 or 500 the file is still in
    the upload directory. *)
Theorem send_image_keeps_failed_upload env out u f w :
  requireApiKey env (m_req u) = true ->
  m_file u = Some f ->
  exists resp w',
    server_api_send_image env out u w = (w', Return resp) /\
    uploads w' =
      if Nat.eqb (code resp) 200 then delete (path f) (uploads w)
      else <[path f := content f]> (uploads w).
Proof.
  intros Hk Hf. unfold server_api_send_image. rewrite Hk, Hf. cbn [negb].
  unfold upload_single, wtry, wbind, wret, in_app, gets, lift, readFileSync, ask,
    unlinkSync, messageStore_insert, modify.
  destruct (truthy (r_to (m_req u))) as [to|]; [|eexists _, _; split; reflexivity].
  cbn -[formatJid]. destruct (SESSIONS (proc w) !! _) as [s|]; [|eexists _, _; split; reflexivity].
  cbn -[formatJid]. rewrite lookup_insert_eq.
  destruct (formatJid (Some to)) as [jid|e]; cbn; [|eexists _, _; split; reflexivity].
  match goal with
  | |- context [refuses out ?a ?call] => destruct (refuses out a call)
  end; cbn; [eexists _, _; split; reflexivity|].
  rewrite lookup_insert_eq. eexists _, _. split; [reflexivity|].
  cbn. apply delete_insert_eq.
Qed.

Lemma send_image_keeps_failed_upload_witness :
  exists resp w',
    server_api_send_image quiet_env deaf_outside
      (mkMultipart (keyed None (Some "6281")) None (Some a_photo)) (world_of server_started)
      = (w', Return resp) /\
    uploads w' =
      if Nat.eqb (code resp) 200 then delete "uploads/3f9a" (uploads (world_of server_started))
      else <["uploads/3f9a" := "iVBORw0KGgo="]> (uploads (world_of server_started)).
Proof.
  apply (send_image_keeps_failed_upload quiet_env deaf_outside
           (mkMultipart (keyed None (Some "6281")) None (Some a_photo)) a_photo
           (world_of server_started)).
  - reflexivity.
  - reflexivity.
Defined.

(** ** What the REST routes leave alone *)

Ltac only_sent_done :=
  cbn; unfold only_sent, new_rows, new_calls; cbn;
  rewrite ?drop_app_length, ?drop_all; cbn; repeat split; lia.

(** The JSON routes ([GET /api/sessions], [GET /api/messages],
    [POST /api/send]) send no socket event and do not touch the
    registry, the sessions table, the credentials or the timers,
    whatever the request.  Those of app.js and the GET routes of
    server.js change nothing at all; [POST /api/send] of server.js adds
    at most one protocol call and one row, so a message sent over REST
    is not announced to the connected pages the way a socket send is. *)
Theorem rest_routes_are_silent env r req st :
  let st_app := exec (app_step env (Http r req)) st in
  let st_server := exec (server_step env (Http r req)) st in
  st_app = st /\
  match r with
  | post_api_send => only_sent st st_server
  | _ => st_server = st
  end.
Proof.
  cbv zeta. unfold exec. split.
  - destruct r; cbn [app_step]; try reflexivity;
      unfold served, app_api_sessions, App.api_messages, App.messageStore_history,
        sessionStore_list;
      destruct (requireApiKey env req); try reflexivity;
      unfold try_catch, bind, ret, gets, lift; cbn;
      repeat case_match; simplify_eq/=; reflexivity.
  - destruct r; cbn [server_step];
      unfold served, server_api_sessions, Server.api_messages, Server.api_send,
        Server.messageStore_list, sessionStore_list;
      destruct (requireApiKey env req); try reflexivity;
      unfold try_catch, bind, ret, gets, lift; cbn -[formatJid];
      try (repeat case_match; simplify_eq/=; reflexivity).
    + destruct (truthy (r_to req)) as [to|]; [|only_sent_done].
      destruct (truthy (r_message req)) as [message|]; [|only_sent_done].
      destruct (SESSIONS st !! _) as [s|]; [|only_sent_done].
      destruct (formatJid (Some to)) as [jid|e]; [|only_sent_done].
      unfold proto.
      destruct (rejects env (calls st) (CSend (sock s) jid (Some message)));
        only_sent_done.
    + only_sent_done.
Qed.
